(** * producthunt-daily-hot: the fetch, normalise and publish job

    A shallow embedding of [scripts/product_hunt_list_to_md.py] and the
    properties its specification states about it.

    The script is one synchronous pass: it pages through a GraphQL API,
    turns every record into a [Product] (local time stamp, keywords, image
    URL with an HTML fallback) and posts a summary document to a webhook.
    Everything outside the process (the HTTP endpoints, the HTML parser,
    the clock, the parts of the C and Unicode libraries that differ between
    platforms) is gathered in one record, [World], that every effectful
    function takes as its first argument.  Python exceptions are values of
    [exn] carried by the [result] monad; [try]/[except] is [try_except]. *)

From Stdlib Require Import ZArith NArith List String Ascii Lia Permutation.
From stdpp Require Import base list gmap countable.
Import ListNotations.

(** ** Python values *)

(** A Python [str] is a sequence of Unicode code points. *)
Definition char := N.
Definition str := list char.

(** An ASCII literal as a [str]. *)
Definition u (s : string) : str :=
  List.map N_of_ascii (list_ascii_of_string s).

(** The exception classes the script can meet.  All of them derive from
    [Exception]; [HTTPError], [ConnectionError] and [Timeout] derive from
    [requests.exceptions.RequestException]. *)
Inductive exn :=
  | Exception
  | ValueError
  | TypeError
  | KeyError
  | IndexError
  | ZeroDivisionError
  | OverflowError
  | AttributeError
  | RequestException
  | HTTPError
  | ConnectionError
  | Timeout.

Definition is_RequestException (e : exn) : bool :=
  match e with
  | RequestException | HTTPError | ConnectionError | Timeout => true
  | _ => false
  end.

(** A computation either returns or raises. *)
Inductive result (A : Type) :=
  | Return (a : A)
  | Raise (e : exn).
Arguments Return {A} a.
Arguments Raise {A} e.

#[global] Instance result_ret : MRet result := fun _ a => Return a.
#[global] Instance result_bind : MBind result := fun _ _ f m =>
  match m with
  | Return a => f a
  | Raise e => Raise e
  end.
#[global] Instance result_fmap : FMap result := fun _ _ f m =>
  match m with
  | Return a => Return (f a)
  | Raise e => Raise e
  end.

(** [try: body except <class> as e: handler e], where [catches] tells which
    exceptions belong to the class. *)
Definition try_except {A} (body : result A) (catches : exn -> bool)
    (handler : exn -> result A) : result A :=
  match body with
  | Return a => Return a
  | Raise e => if catches e then handler e else Raise e
  end.

(** [except Exception]: every member of [exn] is an [Exception]. *)
Definition any_Exception (e : exn) : bool := true.

Definition returns {A} (m : result A) : Prop := exists a, m = Return a.
Definition raises {A} (m : result A) : Prop := exists e, m = Raise e.

(** [[f(x) for x in l]], where [f] may raise: the first exception ends the
    comprehension. *)
Fixpoint list_comprehension {A B} (f : A -> result B) (l : list A)
    : result (list B) :=
  match l with
  | [] => Return []
  | x :: l' => y ← f x; ys ← list_comprehension f l'; Return (y :: ys)
  end.

(** ** Strings *)

(** [str.isspace] on one character: the code points CPython's
    [_PyUnicode_IsWhitespace] accepts. *)
Definition is_space (c : char) : bool :=
  ((9 <=? c) && (c <=? 13) || (28 <=? c) && (c <=? 32)
   || (c =? 133) || (c =? 160) || (c =? 5760)
   || (8192 <=? c) && (c <=? 8202)
   || (c =? 8232) || (c =? 8233) || (c =? 8239) || (c =? 8287)
   || (c =? 12288))%N.

(** [s.replace(old, new)] for one-character [old] and [new]. *)
Definition str_replace (old new : char) (s : str) : str :=
  List.map (fun c => if (c =? old)%N then new else c) s.

(** [s.split(sep)] for a one-character separator: never an empty list. *)
Fixpoint str_split (sep : char) (s : str) : list str :=
  match s with
  | [] => [[]]
  | c :: s' =>
      if (c =? sep)%N then [] :: str_split sep s'
      else match str_split sep s' with
           | [] => [[c]]
           | w :: ws => (c :: w) :: ws
           end
  end.

Fixpoint str_lstrip (s : str) : str :=
  match s with
  | [] => []
  | c :: s' => if is_space c then str_lstrip s' else s
  end.

Definition str_rstrip (s : str) : str := rev (str_lstrip (rev s)).

(** [s.strip()] *)
Definition str_strip (s : str) : str := str_rstrip (str_lstrip s).

(** [sep.join(l)] *)
Fixpoint str_join (sep : str) (l : list str) : str :=
  match l with
  | [] => []
  | [w] => w
  | w :: l' => w ++ sep ++ str_join sep l'
  end.

(** Truth value of a [str]: the empty string is false. *)
Definition str_truthy (s : str) : bool :=
  match s with [] => false | _ => true end.

Definition str_eqb (a b : str) : bool := bool_decide (a = b).

(** ** Sets of strings

    [set(l)] is a [gset].  Python does not fix the order in which a set
    of strings is iterated: it depends on the hash seed of the process.
    The order is therefore a parameter of the platform, [set_order],
    about which only this is known: it enumerates the set, each element
    once. *)
Definition py_set (l : list str) : gset str := list_to_set l.

(** ** Platform

    What the Python and C libraries leave to the process, the platform or
    to data tables: the iteration order of a set of strings; the decimal
    value of the non-ASCII code points of category Nd (the regular
    expression class [\d] and [int] accept them); the UTC offset of
    Asia/Shanghai in seconds at an instant before 1992 (the tz database
    has its last transition for the zone in September 1991; the instant
    is counted in seconds from 0001-01-01T00:00:00 UTC); and the C
    library's rendering of [%Y] for a year below 1000 (glibc does not pad
    it). *)
Record Platform := {
  set_order : list str -> list str;
  set_order_enumerates : forall l, set_order l ≡ₚ elements (py_set l);
  unicode_digit : char -> option Z;
  shanghai_offset_before_1992 : Z -> Z;
  strftime_short_year : Z -> str
}.

(** ** Keyword derivation ([Product.generate_keywords]) *)

Definition comma : char := 44%N.
Definition ampersand : char := 38%N.
Definition pipe : char := 124%N.
Definition hyphen : char := 45%N.
Definition comma_space : str := [44; 32]%N.

(** [s.replace("&", ",").replace("|", ",").replace("-", ",")] *)
Definition normalize_separators (s : str) : str :=
  str_replace hyphen comma
    (str_replace pipe comma (str_replace ampersand comma s)).

(** [normalize_separators(name + ", " + tagline).split(",")] *)
Definition keyword_pieces (name tagline : str) : list str :=
  str_split comma (normalize_separators (name ++ comma_space ++ tagline)).

(** [[word.strip() for word in words if word.strip()]], with
    [words = set(pieces)]. *)
Definition keyword_tokens (pf : Platform) (name tagline : str) : list str :=
  List.map str_strip
    (List.filter (fun word => str_truthy (str_strip word))
       (set_order pf (keyword_pieces name tagline))).

(** The [try] body cannot raise on two [str] arguments; the handler
    ([return self.name]) is kept as the source has it. *)
Definition generate_keywords (pf : Platform) (name tagline : str)
    : result str :=
  try_except
    (Return (str_join comma_space (keyword_tokens pf name tagline)))
    any_Exception
    (fun _ => Return name).

Open Scope Z_scope.

(** ** Calendar arithmetic ([datetime]) *)

Record datetime := {
  year : Z; month : Z; day : Z;
  hour : Z; minute : Z; second : Z
}.

Definition MINYEAR : Z := 1.
Definition MAXYEAR : Z := 9999.

Definition is_leap (y : Z) : bool :=
  (y mod 4 =? 0) && (negb (y mod 100 =? 0) || (y mod 400 =? 0)).

(** [_DAYS_IN_MONTH], for a year that is not a leap year. *)
Definition DAYS_IN_MONTH (m : Z) : Z :=
  match m with
  | 2 => 28
  | 4 | 6 | 9 | 11 => 30
  | _ => 31
  end.

Definition days_in_month (y m : Z) : Z :=
  if (m =? 2) && is_leap y then 29 else DAYS_IN_MONTH m.

(** [_DAYS_BEFORE_MONTH], the running sum of [_DAYS_IN_MONTH]. *)
Definition DAYS_BEFORE_MONTH (m : Z) : Z :=
  match m with
  | 1 => 0 | 2 => 31 | 3 => 59 | 4 => 90 | 5 => 120 | 6 => 151
  | 7 => 181 | 8 => 212 | 9 => 243 | 10 => 273 | 11 => 304 | 12 => 334
  | _ => 0
  end.

Definition days_before_year (y : Z) : Z :=
  let y := y - 1 in y * 365 + y / 4 - y / 100 + y / 400.

Definition days_before_month (y m : Z) : Z :=
  DAYS_BEFORE_MONTH m + (if (2 <? m) && is_leap y then 1 else 0).

(** [_ymd2ord]: 0001-01-01 is day 1. *)
Definition ymd2ord (y m d : Z) : Z :=
  days_before_year y + days_before_month y m + d.

Definition DI400Y : Z := 146097.
Definition DI100Y : Z := 36524.
Definition DI4Y : Z := 1461.

(** [_ord2ymd] *)
Definition ord2ymd (n : Z) : Z * Z * Z :=
  let n := n - 1 in
  let n400 := n / DI400Y in let n := n mod DI400Y in
  let y := n400 * 400 + 1 in
  let n100 := n / DI100Y in let n := n mod DI100Y in
  let n4 := n / DI4Y in let n := n mod DI4Y in
  let n1 := n / 365 in let n := n mod 365 in
  let y := y + n100 * 100 + n4 * 4 + n1 in
  if (n1 =? 4) || (n100 =? 4) then (y - 1, 12, 31)
  else
    let leapyear := (n1 =? 3) && (negb (n4 =? 24) || (n100 =? 3)) in
    let m := Z.shiftr (n + 50) 5 in
    let preceding :=
      DAYS_BEFORE_MONTH m + (if (2 <? m) && leapyear then 1 else 0) in
    if n <? preceding then
      let m := m - 1 in
      let preceding :=
        preceding
        - (DAYS_IN_MONTH m + (if (m =? 2) && leapyear then 1 else 0)) in
      (y, m, n - preceding + 1)
    else (y, m, n - preceding + 1).

(** The checks of the [date] and [time] constructors. *)
Definition check_date_fields (y m d : Z) : bool :=
  (MINYEAR <=? y) && (y <=? MAXYEAR) && (1 <=? m) && (m <=? 12)
  && (1 <=? d) && (d <=? days_in_month y m).

Definition check_time_fields (h mi s : Z) : bool :=
  (0 <=? h) && (h <=? 23) && (0 <=? mi) && (mi <=? 59)
  && (0 <=? s) && (s <=? 59).

(** [datetime(y, m, d, h, mi, s)] *)
Definition make_datetime (y m d h mi s : Z) : result datetime :=
  if check_date_fields y m d && check_time_fields h mi s
  then Return {| year := y; month := m; day := d;
                 hour := h; minute := mi; second := s |}
  else Raise ValueError.

(** Seconds from 0001-01-01T00:00:00 to a naive date and time. *)
Definition to_seconds (dt : datetime) : Z :=
  (ymd2ord (year dt) (month dt) (day dt) - 1) * 86400
  + hour dt * 3600 + minute dt * 60 + second dt.

Definition MAXORDINAL : Z := 3652059.

(** [dt + timedelta(seconds=delta)]: [OverflowError] outside the years
    1..9999. *)
Definition add_seconds (dt : datetime) (delta : Z) : result datetime :=
  let t := to_seconds dt + delta in
  let ordinal := t / 86400 + 1 in
  let r := t mod 86400 in
  if (1 <=? ordinal) && (ordinal <=? MAXORDINAL) then
    let '(y, m, d) := ord2ymd ordinal in
    Return {| year := y; month := m; day := d;
              hour := r / 3600; minute := r mod 3600 / 60;
              second := r mod 60 |}
  else Raise OverflowError.

(** ** Regular expressions ([re], as [_strptime] uses it)

    The fragment [_strptime.TimeRE] builds for a format: literals (matched
    without regard to case, as the pattern is compiled with IGNORECASE),
    [\d], ranges of ASCII characters, sequence, ordered alternative and
    named groups. *)
Inductive regex :=
  | REmpty
  | RLit (c : char)
  | RDigit
  | RRange (lo hi : char)
  | RSeq (r1 r2 : regex)
  | RAlt (r1 r2 : regex)
  | RGroup (name : char) (r : regex).

(** One way of matching a prefix: the text matched, the groups captured
    and the text left. *)
Record rmatch_state := {
  matched : str;
  groups : list (char * str);
  remaining : str
}.

Definition ascii_digit (c : char) : option Z :=
  if ((48 <=? c) && (c <=? 57))%N then Some (Z.of_N c - 48) else None.

(** The decimal value of a character of category Nd. *)
Definition digit_value (pf : Platform) (c : char) : option Z :=
  if (c <? 128)%N then ascii_digit c else unicode_digit pf c.

Definition ascii_lower (c : char) : char :=
  if ((65 <=? c) && (c <=? 90))%N then (c + 32)%N else c.

Definition rmatch_char (ok : char -> bool) (s : str) : list rmatch_state :=
  match s with
  | c :: s' =>
      if ok c
      then [{| matched := [c]; groups := []; remaining := s' |}]
      else []
  | [] => []
  end.

(** Every way [r] matches a prefix of [s], in the order a backtracking
    matcher tries them; [re.match] takes the first. *)
Fixpoint rmatch (pf : Platform) (r : regex) (s : str) : list rmatch_state :=
  match r with
  | REmpty => [{| matched := []; groups := []; remaining := s |}]
  | RLit c => rmatch_char (fun c' => (ascii_lower c' =? ascii_lower c)%N) s
  | RDigit =>
      rmatch_char
        (fun c' => match digit_value pf c' with Some _ => true | None => false end)
        s
  | RRange lo hi => rmatch_char (fun c' => ((lo <=? c') && (c' <=? hi))%N) s
  | RSeq r1 r2 =>
      flat_map
        (fun m1 =>
           List.map
             (fun m2 => {| matched := matched m1 ++ matched m2;
                           groups := groups m1 ++ groups m2;
                           remaining := remaining m2 |})
             (rmatch pf r2 (remaining m1)))
        (rmatch pf r1 s)
  | RAlt r1 r2 => rmatch pf r1 s ++ rmatch pf r2 s
  | RGroup name r1 =>
      List.map
        (fun m => {| matched := matched m;
                     groups := (name, matched m) :: groups m;
                     remaining := remaining m |})
        (rmatch pf r1 s)
  end.

Definition rdigit_range (lo hi : Z) : regex :=
  RRange (Z.to_N (48 + lo)) (Z.to_N (48 + hi)).
Definition rdigit_lit (d : Z) : regex := RLit (Z.to_N (48 + d)).

Fixpoint ralts (r : regex) (rs : list regex) : regex :=
  match rs with
  | [] => r
  | r' :: rs' => RAlt r (ralts r' rs')
  end.

(** The table of [_strptime.TimeRE], for the directives the script uses. *)
Definition directive_regex (d : char) : option regex :=
  if (d =? 89)%N then        (* Y: \d\d\d\d *)
    Some (RGroup d (RSeq RDigit (RSeq RDigit (RSeq RDigit RDigit))))
  else if (d =? 109)%N then  (* m: 1[0-2]|0[1-9]|[1-9] *)
    Some (RGroup d (ralts (RSeq (rdigit_lit 1) (rdigit_range 0 2))
                          [RSeq (rdigit_lit 0) (rdigit_range 1 9);
                           rdigit_range 1 9]))
  else if (d =? 100)%N then  (* d: 3[0-1]|[1-2]\d|0[1-9]|[1-9]| [1-9] *)
    Some (RGroup d (ralts (RSeq (rdigit_lit 3) (rdigit_range 0 1))
                          [RSeq (rdigit_range 1 2) RDigit;
                           RSeq (rdigit_lit 0) (rdigit_range 1 9);
                           rdigit_range 1 9;
                           RSeq (RLit 32%N) (rdigit_range 1 9)]))
  else if (d =? 72)%N then   (* H: 2[0-3]|[0-1]\d|\d *)
    Some (RGroup d (ralts (RSeq (rdigit_lit 2) (rdigit_range 0 3))
                          [RSeq (rdigit_range 0 1) RDigit; RDigit]))
  else if (d =? 77)%N then   (* M: [0-5]\d|\d *)
    Some (RGroup d (ralts (RSeq (rdigit_range 0 5) RDigit) [RDigit]))
  else if (d =? 83)%N then   (* S: 6[0-1]|[0-5]\d|\d *)
    Some (RGroup d (ralts (RSeq (rdigit_lit 6) (rdigit_range 0 1))
                          [RSeq (rdigit_range 0 5) RDigit; RDigit]))
  else None.

Definition percent : char := 37%N.

(** [TimeRE.pattern]: a directive becomes its expression, any other
    character a literal.  A directive outside the table, or a lone
    trailing [%], is a [ValueError]. *)
Fixpoint format_regex (fmt : str) : result regex :=
  match fmt with
  | [] => Return REmpty
  | c :: fmt' =>
      if (c =? percent)%N then
        match fmt' with
        | [] => Raise ValueError
        | d :: fmt'' =>
            match directive_regex d with
            | Some r => rest ← format_regex fmt''; Return (RSeq r rest)
            | None => Raise ValueError
            end
        end
      else rest ← format_regex fmt'; Return (RSeq (RLit c) rest)
  end.

(** [int(s)] for a string of decimal digits, blanks around it ignored. *)
Definition py_int (pf : Platform) (s : str) : result Z :=
  match str_strip s with
  | [] => Raise ValueError
  | ds =>
      fold_left
        (fun acc c =>
           n ← acc;
           match digit_value pf c with
           | Some v => Return (10 * n + v)
           | None => Raise ValueError
           end)
        ds (Return 0)
  end.

(** [int(found_dict[name])] when the group took part in the match, the
    default of [_strptime] otherwise. *)
Definition group_int (pf : Platform) (m : rmatch_state) (name : string)
    (default : Z) : result Z :=
  match List.find (fun g => str_eqb [fst g] (u name)) (groups m) with
  | Some g => py_int pf (snd g)
  | None => Return default
  end.

(** [datetime.strptime(data_string, format)] *)
Definition strptime (pf : Platform) (data_string format : str)
    : result datetime :=
  re ← format_regex format;
  match rmatch pf re data_string with
  | [] => Raise ValueError          (* does not match format *)
  | found :: _ =>
      if str_truthy (remaining found) then Raise ValueError
                                    (* unconverted data remains *)
      else
        y ← group_int pf found "Y" 1900;
        m ← group_int pf found "m" 1;
        d ← group_int pf found "d" 1;
        h ← group_int pf found "H" 0;
        mi ← group_int pf found "M" 0;
        s ← group_int pf found "S" 0;
        make_datetime y m d h mi s
  end.

(** ** Rendering ([datetime.strftime]) *)

Definition digit_char (d : Z) : char := Z.to_N (48 + d).

Definition pad2 (n : Z) : str := [digit_char (n / 10); digit_char (n mod 10)].

Definition pad4 (n : Z) : str :=
  [digit_char (n / 1000); digit_char (n / 100 mod 10);
   digit_char (n / 10 mod 10); digit_char (n mod 10)].

Definition format_year (pf : Platform) (y : Z) : str :=
  if y <? 1000 then strftime_short_year pf y else pad4 y.

(** The directives of the two formats the script uses, in the C locale
    (the script never calls [setlocale]): [%p] is AM or PM and [%I] the
    hour on the twelve-hour clock. *)
Definition strftime_directive (pf : Platform) (dt : datetime) (d : char)
    : str :=
  if (d =? 89)%N then format_year pf (year dt)
  else if (d =? 109)%N then pad2 (month dt)
  else if (d =? 100)%N then pad2 (day dt)
  else if (d =? 72)%N then pad2 (hour dt)
  else if (d =? 77)%N then pad2 (minute dt)
  else if (d =? 83)%N then pad2 (second dt)
  else if (d =? 73)%N then
    pad2 (if hour dt mod 12 =? 0 then 12 else hour dt mod 12)
  else if (d =? 112)%N then (if hour dt <? 12 then u "AM" else u "PM")
  else if (d =? percent)%N then [percent]
  else [percent; d].

Fixpoint strftime (pf : Platform) (dt : datetime) (fmt : str) : str :=
  match fmt with
  | [] => []
  | c :: fmt' =>
      if (c =? percent)%N then
        match fmt' with
        | [] => [percent]
        | d :: fmt'' => strftime_directive pf dt d ++ strftime pf dt fmt''
        end
      else c :: strftime pf dt fmt'
  end.

(** ** Time zone ([pytz.timezone('Asia/Shanghai')]) *)

(** 1992-01-01T00:00:00 UTC, in seconds from 0001-01-01T00:00:00. *)
Definition T1992 : Z := (ymd2ord 1992 1 1 - 1) * 86400.

Definition shanghai_utcoffset (pf : Platform) (utc : datetime) : Z :=
  if T1992 <=? to_seconds utc then 8 * 3600
  else shanghai_offset_before_1992 pf (to_seconds utc).

(** [utc.replace(tzinfo=pytz.utc).astimezone(beijing_tz)]: the zone's
    [fromutc] adds the offset in force at that instant. *)
Definition astimezone_shanghai (pf : Platform) (utc : datetime)
    : result datetime :=
  add_seconds utc (shanghai_utcoffset pf utc).

(** ** Timestamp conversion ([Product.convert_to_beijing_time]) *)

Definition utc_format : str := u "%Y-%m-%dT%H:%M:%SZ".

(** ['%Y年%m月%d日 %p%I:%M (北京时间)'] *)
Definition beijing_format : str :=
  (u "%Y" ++ [24180] ++ u "%m" ++ [26376] ++ u "%d" ++ [26085]
   ++ u " %p%I:%M (" ++ [21271; 20140; 26102; 38388] ++ u ")")%N.

Definition convert_to_beijing_time (pf : Platform) (utc_time_str : str)
    : result str :=
  utc_time ← strptime pf utc_time_str utc_format;
  beijing_time ← astimezone_shanghai pf utc_time;
  Return (strftime pf beijing_time beijing_format).

(** ** Pages and their meta tags ([requests], [bs4]) *)

Record response := { status_code : Z; text : str }.

(** [response.raise_for_status()] *)
Definition raise_for_status (r : response) : result unit :=
  if (400 <=? status_code r) && (status_code r <? 600)
  then Raise HTTPError else Return tt.

(** A parsed document, as far as [find] looks at it: its tags in document
    order, each with its attributes. *)
Record tag := { tag_name : str; tag_attrs : list (str * str) }.
Definition parsed_page := list tag.

Fixpoint assoc {A} (k : str) (l : list (str * A)) : option A :=
  match l with
  | [] => None
  | (k', v) :: l' => if str_eqb k' k then Some v else assoc k l'
  end.

(** [tag[key]] *)
Definition tag_getitem (t : tag) (key : str) : result str :=
  match assoc key (tag_attrs t) with
  | Some v => Return v
  | None => Raise KeyError
  end.

(** How Python binds the arguments of a call to a function declared
    [def f(self, p1=.., ..., pn=.., **kwargs)]: positional arguments fill
    the parameters in order; a keyword that names a parameter fills it,
    unless a positional argument already did, which is a [TypeError]
    (multiple values for the argument); any other keyword goes to
    [kwargs]. *)
Record bound_call := {
  bound : list (str * str);
  kwargs : list (str * str)
}.

Fixpoint bind_positional (params : list str) (args : list str)
    : result (list (str * str)) :=
  match args, params with
  | [], _ => Return []
  | a :: args', p :: params' =>
      b ← bind_positional params' args'; Return ((p, a) :: b)
  | _ :: _, [] => Raise TypeError
  end.

Fixpoint bind_keywords (params : list str) (call : bound_call)
    (keywords : list (str * str)) : result bound_call :=
  match keywords with
  | [] => Return call
  | (k, v) :: keywords' =>
      if existsb (str_eqb k) params then
        match assoc k (bound call) with
        | Some _ => Raise TypeError
        | None =>
            bind_keywords params
              {| bound := bound call ++ [(k, v)]; kwargs := kwargs call |}
              keywords'
        end
      else
        bind_keywords params
          {| bound := bound call; kwargs := kwargs call ++ [(k, v)] |}
          keywords'
  end.

Definition bind_call (params : list str) (args : list str)
    (keywords : list (str * str)) : result bound_call :=
  b ← bind_positional params args;
  bind_keywords params {| bound := b; kwargs := [] |} keywords.

(** [def find(self, name=None, attrs={}, recursive=True, string=None,
    **kwargs)] *)
Definition find_parameters : list str :=
  [u "name"; u "attrs"; u "recursive"; u "string"].

Definition tag_matches (name : option str) (filters : list (str * str))
    (t : tag) : bool :=
  match name with
  | Some n => str_eqb (tag_name t) n
  | None => true
  end
  && forallb
       (fun kv =>
          match assoc (fst kv) (tag_attrs t) with
          | Some v => str_eqb v (snd kv)
          | None => false
          end)
       filters.

(** [soup.find] called with positional and keyword arguments: the first
    tag with the given name whose attributes match the keyword filters,
    or [None].  (The script passes neither [attrs], [recursive] nor
    [string].) *)
Definition find (s : parsed_page) (args : list str) (keywords : list (str * str))
    : result (option tag) :=
  call ← bind_call find_parameters args keywords;
  Return
    (List.find (tag_matches (assoc (u "name") (bound call)) (kwargs call)) s).

(** ** Records of the API, products and the published document *)

(** One entry of a post's [media] list; [None] is a missing or null key. *)
Record media_item := {
  media_url : option str;
  media_type : option str;
  videoUrl : option str
}.

(** One element of [data.posts.nodes]: the keyword arguments the
    constructor of [Product] receives. *)
Record node := {
  node_id : str;
  node_name : str;
  node_tagline : str;
  node_description : str;
  votesCount : Z;
  createdAt : str;
  featuredAt : option str;
  node_website : str;
  node_url : str;
  media : option (list media_item)
}.

Record Product := {
  name : str;
  tagline : str;
  description : str;
  votes_count : Z;
  created_at : str;
  featured : str;
  website : str;
  url : str;
  og_image_url : str;
  keyword : str
}.

(** [data.posts] of one reply. *)
Record posts_page := {
  nodes : list node;
  hasNextPage : bool;
  endCursor : str
}.

(** One entry of the document's product list; [rank] is the key 排名,
    [media_kind] the key 媒体类型. *)
Record product_info := {
  rank : Z;
  info_name : str;
  info_tagline : str;
  info_description : str;
  info_image : str;
  info_votes : Z;
  info_created_at : str;
  info_featured : str;
  info_website : str;
  info_url : str;
  info_keyword : str;
  media_kind : str
}.

(** The JSON document posted to the webhook (keys 日期, 数据来源, 产品总数,
    总票数, 平均票数, 最高票数, 最低票数, 产品列表). *)
Record document := {
  doc_date : str;
  doc_source : str;
  product_count : Z;
  total_votes : Z;
  avg_votes : Z;
  max_votes : Z;
  min_votes : Z;
  products_data : list product_info
}.

(** ** The world outside the process

    [requests_get url] is [requests.get(url, timeout=10)];
    [BeautifulSoup text] is the HTML parser; [graphql_posts date cursor]
    is the API call of one loop iteration: [session.post] with the query
    for that date and cursor, [raise_for_status] and the decoding of
    [data.posts], with whatever any of them raises; [requests_post data]
    is the POST to the webhook; [date_today] and [date_yesterday] are the
    dates the clock gives, already formatted with [%Y-%m-%d]. *)
Record World := {
  platform : Platform;
  requests_get : str -> result response;
  BeautifulSoup : str -> result parsed_page;
  graphql_posts : str -> str -> result posts_page;
  requests_post : document -> result response;
  date_today : str;
  date_yesterday : str
}.

(** ** Image URL ([Product.fetch_og_image_url],
       [Product.get_image_url_from_media]) *)

Definition fetch_og_image_url (w : World) (self_url : str) : result str :=
  try_except
    (response ← requests_get w self_url;
     if status_code response =? 200 then
       soup ← BeautifulSoup w (text response);
       og_image ← find soup [u "meta"] [(u "property", u "og:image")];
       match og_image with
       | Some t => tag_getitem t (u "content")
       | None =>
           twitter_image ←
             find soup [u "meta"] [(u "name", u "twitter:image")];
           match twitter_image with
           | Some t => tag_getitem t (u "content")
           | None => Return []
           end
       end
     else Return [])
    any_Exception
    (fun _ => Return []).

(** [media[0].get('url', '')] when [media] is a non-empty list. *)
Definition first_media_url (media : option (list media_item)) : option str :=
  match media with
  | Some (m :: _) => Some (default [] (media_url m))
  | _ => None
  end.

Definition get_image_url_from_media (w : World) (self_url : str)
    (media : option (list media_item)) : result str :=
  try_except
    (match first_media_url media with
     | Some (c :: image_url) => Return (c :: image_url)
     | _ =>
         backup_url ← fetch_og_image_url w self_url;
         if str_truthy backup_url then Return backup_url else Return []
     end)
    any_Exception
    (fun _ => Return []).

(** ** Construction ([Product.__init__]) *)

Definition yes : str := [26159%N].   (* 是 *)
Definition no : str := [21542%N].    (* 否 *)

Definition featured_flag (featuredAt : option str) : str :=
  match featuredAt with
  | Some (_ :: _) => yes
  | _ => no
  end.

Definition Product_init (w : World) (post : node) : result Product :=
  created ← convert_to_beijing_time (platform w) (createdAt post);
  image ← get_image_url_from_media w (node_url post) (media post);
  kw ← generate_keywords (platform w) (node_name post) (node_tagline post);
  Return {| name := node_name post;
            tagline := node_tagline post;
            description := node_description post;
            votes_count := votesCount post;
            created_at := created;
            featured := featured_flag (featuredAt post);
            website := node_website post;
            url := node_url post;
            og_image_url := image;
            keyword := kw |}.

(** ** Fetching ([fetch_product_hunt_data]) *)

(** The function returns a literal, so the check for a missing token
    never fires; the literal itself is not reproduced here. *)
Definition get_producthunt_token : option str := Some (u "<token>").

(** The variables of the [while] loop, and the cursors sent so far. *)
Record fetch_state := {
  all_posts : list node;
  has_next_page : bool;
  cursor : str;
  requests_sent : list str
}.

Definition initial_fetch_state : fetch_state :=
  {| all_posts := []; has_next_page := true; cursor := [];
     requests_sent := [] |}.

Definition loop_condition (st : fetch_state) : bool :=
  has_next_page st && (length (all_posts st) <? 30)%nat.

(** One iteration: a [RequestException] is raised again as a plain
    [Exception], anything else propagates unchanged. *)
Definition fetch_step (w : World) (date_str : str) (st : fetch_state)
    : result fetch_state :=
  try_except
    (data ← graphql_posts w date_str (cursor st);
     Return {| all_posts := all_posts st ++ nodes data;
               has_next_page := hasNextPage data;
               cursor := endCursor data;
               requests_sent := requests_sent st ++ [cursor st] |})
    is_RequestException
    (fun _ => Raise Exception).

(** The loop, with a bound on the number of iterations: [None] when the
    bound is reached with the condition still true. *)
Fixpoint fetch_loop (w : World) (date_str : str) (fuel : nat)
    (st : fetch_state) : option (result fetch_state) :=
  if loop_condition st then
    match fuel with
    | O => None
    | S fuel' =>
        match fetch_step w date_str st with
        | Return st' => fetch_loop w date_str fuel' st'
        | Raise e => Some (Raise e)
        end
    end
  else Some (Return st).

(** [sorted(l, key=lambda x: x['votesCount'], reverse=True)]: a stable
    sort, records with equal votes keep their order. *)
Fixpoint insert_by_votes (x : node) (l : list node) : list node :=
  match l with
  | [] => [x]
  | y :: l' =>
      if votesCount y <=? votesCount x then x :: l
      else y :: insert_by_votes x l'
  end.

Definition sorted_by_votes (l : list node) : list node :=
  fold_right insert_by_votes [] l.

Definition fetch_product_hunt_data (w : World) (fuel : nat)
    : option (result (list Product)) :=
  match get_producthunt_token with
  | None | Some [] => Some (Raise Exception)
  | Some _ =>
      match fetch_loop w (date_yesterday w) fuel initial_fetch_state with
      | None => None
      | Some (Raise e) => Some (Raise e)
      | Some (Return st) =>
          Some (list_comprehension (Product_init w)
                  (take 30 (sorted_by_votes (all_posts st))))
      end
  end.

(** ** Fallback data ([fetch_mock_data]) *)

Definition mock_products : list node :=
  [ {| node_id := u "1";
       node_name := u "Venice";
       node_tagline :=
         u "Private & censorship-resistant AI | Unlock unlimited intelligence";
       node_description :=
         u "Venice is a private, censorship-resistant AI platform powered by open-source models and decentralized infrastructure. The app combines the benefits of decentralized blockchain technology with the power of generative AI.";
       votesCount := 566;
       createdAt := u "2025-03-07T16:01:00Z";
       featuredAt := Some (u "2025-03-07T16:01:00Z");
       node_website := u "https://www.producthunt.com/r/4D6Z6F7I3SXTGN";
       node_url := u "https://www.producthunt.com/posts/venice-3";
       media :=
         Some [ {| media_url :=
                     Some (u "https://ph-files.imgix.net/97baee49-6dda-47f5-8a47-91d2c56e1976.jpeg");
                   media_type := Some (u "image");
                   videoUrl := None |} ] |};
    {| node_id := u "2";
       node_name := u "Mistral OCR";
       node_tagline :=
         u "Introducing the world's most powerful document understanding API";
       node_description :=
         u "Introducing Mistral OCR" ++ [8212%N]
         ++ u "an advanced, lightweight optical character recognition model focused on speed, accuracy, and efficiency. Whether extracting text from images or digitizing documents, it delivers top-tier performance with ease.";
       votesCount := 477;
       createdAt := u "2025-03-07T16:01:00Z";
       featuredAt := Some (u "2025-03-07T16:01:00Z");
       node_website := u "https://www.producthunt.com/r/SPXNTAWQSVRLGH";
       node_url := u "https://www.producthunt.com/posts/mistral-ocr";
       media :=
         Some [ {| media_url :=
                     Some (u "https://ph-files.imgix.net/4224517b-29e4-4944-98c9-2eee59374870.png");
                   media_type := Some (u "image");
                   videoUrl := None |} ] |};
    {| node_id := u "3";
       node_name := u "AI Code Reviewer";
       node_tagline := u "Automated code review powered by AI";
       node_description :=
         u "An intelligent code review tool that uses AI to analyze your code, suggest improvements, and catch potential bugs before they reach production.";
       votesCount := 324;
       createdAt := u "2025-03-07T14:30:00Z";
       featuredAt := None;
       node_website := u "https://example.com/ai-code-reviewer";
       node_url := u "https://www.producthunt.com/posts/ai-code-reviewer";
       media := Some [] |} ].

Definition fetch_mock_data (w : World) : result (list Product) :=
  list_comprehension (Product_init w) mock_products.

(** ** Publishing ([send_to_webhook]) *)

(** [a // b] *)
Definition floordiv (a b : Z) : result Z :=
  if b =? 0 then Raise ZeroDivisionError else Return (a / b).

(** [l[i]]: a negative index counts from the end; [IndexError] outside
    the list. *)
Definition getitem {A} (l : list A) (i : Z) : result A :=
  let j := if i <? 0 then i + Z.of_nat (length l) else i in
  if j <? 0 then Raise IndexError
  else match l !! Z.to_nat j with
       | Some x => Return x
       | None => Raise IndexError
       end.

(** Truth value of a list. *)
Definition list_truthy {A} (l : list A) : bool :=
  match l with [] => false | _ => true end.

Definition sum_votes (l : list Product) : Z :=
  fold_right (fun product acc => votes_count product + acc) 0 l.

Definition picture : str := [22270; 29255]%N.          (* 图片 *)
Definition no_picture : str := [26080; 22270; 29255]%N. (* 无图片 *)

Definition product_info_of (i : nat) (product : Product) : product_info :=
  {| rank := Z.of_nat i + 1;
     info_name := name product;
     info_tagline := tagline product;
     info_description := description product;
     info_image := og_image_url product;
     info_votes := votes_count product;
     info_created_at := created_at product;
     info_featured := featured product;
     info_website := website product;
     info_url := url product;
     info_keyword := keyword product;
     media_kind :=
       if str_truthy (og_image_url product) then picture else no_picture |}.

(** The statistics and the product list, as computed before the POST. *)
Definition build_document (w : World) (products : list Product)
    : result document :=
  let products_data := imap product_info_of (take 10 products) in
  let total_votes := sum_votes (take 10 products) in
  avg_votes ←
    (if list_truthy products
     then floordiv total_votes (Z.of_nat (length (take 10 products)))
     else Return 0);
  highest ←
    (if list_truthy products
     then votes_count <$> getitem products 0
     else Return 0);
  lowest ←
    (if list_truthy products
     then votes_count <$>
            getitem products (Z.min 9 (Z.of_nat (length products) - 1))
     else Return 0);
  Return {| doc_date := date_today w;
            doc_source := u "Product Hunt API";
            product_count := Z.of_nat (length products_data);
            total_votes := total_votes;
            avg_votes := avg_votes;
            max_votes := highest;
            min_votes := lowest;
            products_data := products_data |}.

(** What a call leaves behind: the document handed to [requests.post]
    and the value returned ([True] on a response that is no error). *)
Record sent := {
  posted : document;
  delivered : bool
}.

Definition send_to_webhook (w : World) (products : list Product)
    : result sent :=
  data ← build_document w products;
  ok ← try_except
         (response ← requests_post w data;
          _ ← raise_for_status response;
          Return true)
         any_Exception
         (fun _ => Return false);
  Return {| posted := data; delivered := ok |}.

(** ** The job ([main]) *)

Definition main (w : World) (fuel : nat) : option (result sent) :=
  match fetch_product_hunt_data w fuel with
  | None => None
  | Some fetched =>
      Some (products ← try_except fetched any_Exception
                         (fun _ => fetch_mock_data w);
            send_to_webhook w products)
  end.

(** ** The dates of a run ([datetime.now(timezone.utc)])

    The job reads the clock and formats the date of the day, for the
    document, and the date of the day before, for the query: the strings
    that [date_today] and [date_yesterday] stand for. *)

Definition date_format : str := u "%Y-%m-%d".

(** [now.strftime('%Y-%m-%d')] *)
Definition today_date_str (pf : Platform) (now : datetime) : str :=
  strftime pf now date_format.

(** [(now - timedelta(days=1)).strftime('%Y-%m-%d')] *)
Definition yesterday_date_str (pf : Platform) (now : datetime) : result str :=
  yesterday ← add_seconds now (- 86400);
  Return (strftime pf yesterday date_format).

(** * Vocabulary of the properties *)

(** No blank at either end. *)
Definition starts_clean (s : str) : Prop :=
  match s with
  | [] => True
  | c :: _ => is_space c = false
  end.

Definition trimmed (s : str) : Prop := starts_clean s /\ starts_clean (rev s).

(** Votes never increase along the list. *)
Fixpoint descending (l : list node) : Prop :=
  match l with
  | [] => True
  | x :: l' => Forall (fun y => votesCount y <= votesCount x) l' /\ descending l'
  end.

(** The four characters that end a keyword. *)
Definition is_separator (c : char) : bool :=
  ((c =? comma) || (c =? ampersand) || (c =? pipe) || (c =? hyphen))%N.

(** The strings a regular expression matches as a whole. *)
Inductive in_language (pf : Platform) : regex -> str -> Prop :=
  | lang_empty : in_language pf REmpty []
  | lang_lit c c' :
      ascii_lower c' = ascii_lower c -> in_language pf (RLit c) [c']
  | lang_digit c v :
      digit_value pf c = Some v -> in_language pf RDigit [c]
  | lang_range lo hi c :
      (lo <= c <= hi)%N -> in_language pf (RRange lo hi) [c]
  | lang_seq r1 r2 s1 s2 :
      in_language pf r1 s1 -> in_language pf r2 s2 ->
      in_language pf (RSeq r1 r2) (s1 ++ s2)
  | lang_alt_l r1 r2 s : in_language pf r1 s -> in_language pf (RAlt r1 r2) s
  | lang_alt_r r1 r2 s : in_language pf r2 s -> in_language pf (RAlt r1 r2) s
  | lang_group name r s : in_language pf r s -> in_language pf (RGroup name r) s.

(** The expression [_strptime] derives from [%Y-%m-%dT%H:%M:%SZ]: a year
    of four digits, a month 1..12, a day 1..31, an hour 0..23, a minute
    and a second, each of one or two digits, between [-] (45), [-], [T]
    (84), [:] (58), [:] and a final [Z] (90). *)
Definition the_directive (d : string) : regex :=
  match u d with
  | [c] => default REmpty (directive_regex c)
  | _ => REmpty
  end.

Definition utc_regex : regex :=
  RSeq (the_directive "Y") (RSeq (RLit 45%N)
  (RSeq (the_directive "m") (RSeq (RLit 45%N)
  (RSeq (the_directive "d") (RSeq (RLit 84%N)
  (RSeq (the_directive "H") (RSeq (RLit 58%N)
  (RSeq (the_directive "M") (RSeq (RLit 58%N)
  (RSeq (the_directive "S") (RSeq (RLit 90%N) REmpty))))))))))).

(** The first way a regular expression matches, if any. *)
Definition first_match (pf : Platform) (r : regex) (s : str)
    : option rmatch_state :=
  head (rmatch pf r s).

(** The zero-padded timestamp of a date and a time, as the API writes
    it: ["2025-03-07T16:01:00Z"]. *)
Definition iso_timestamp (y m d h mi s : Z) : str :=
  pad4 y ++ [45%N] ++ pad2 m ++ [45%N] ++ pad2 d ++ [84%N]
  ++ pad2 h ++ [58%N] ++ pad2 mi ++ [58%N] ++ pad2 s ++ [90%N].

(** The loop as a relation: [iterates w date st st'] when the iterations
    started in [st] end in [st'] without an exception.  An iteration is
    run exactly when the loop condition holds. *)
Inductive iterates (w : World) (date_str : str)
    : fetch_state -> fetch_state -> Prop :=
  | iterates_stop st :
      loop_condition st = false -> iterates w date_str st st
  | iterates_step st st1 st' :
      loop_condition st = true ->
      fetch_step w date_str st = Return st1 ->
      iterates w date_str st1 st' ->
      iterates w date_str st st'.



(** The day after a date. *)
Definition next_day (y m d : Z) : Z * Z * Z :=
  if d <? days_in_month y m then (y, m, d + 1)
  else if m <? 12 then (y, m + 1, 1)
  else (y + 1, 1, 1).

(** The day before a date. *)
Definition previous_day (y m d : Z) : Z * Z * Z :=
  if 1 <? d then (y, m, d - 1)
  else if 1 <? m then (y, m - 1, days_in_month y (m - 1))
  else (y - 1, 12, 31).

(** The local date and hour eight hours after a UTC date and hour. *)
Definition eight_hours_later (y m d h : Z) : Z * Z * Z * Z :=
  if h <? 16 then (y, m, d, h + 8)
  else let '(y', m', d') := next_day y m d in (y', m', d', h - 16).

(** ["YYYY年MM月DD日 AMhh:mm (北京时间)"]: the date, the half of the day,
    the hour on the twelve-hour clock, the minute and the label of the
    zone. *)
Definition beijing_display (y m d h mi : Z) : str :=
  pad4 y ++ [24180%N] ++ pad2 m ++ [26376%N] ++ pad2 d ++ [26085%N]
  ++ u " " ++ (if h <? 12 then u "AM" else u "PM")
  ++ pad2 (if h mod 12 =? 0 then 12 else h mod 12)
  ++ u ":" ++ pad2 mi ++ u " (" ++ [21271; 20140; 26102; 38388]%N ++ u ")".

(** The zero-padded date ["2025-03-07"]. *)
Definition iso_date (y m d : Z) : str :=
  pad4 y ++ [45%N] ++ pad2 m ++ [45%N] ++ pad2 d.

(** Numbers that never increase along the list. *)
Fixpoint never_increasing (l : list Z) : Prop :=
  match l with
  | [] => True
  | v :: l' => Forall (fun v' => v' <= v) l' /\ never_increasing l'
  end.

(** The pages the API serves from a cursor on, each asked for with the
    end cursor of the one before. *)
Inductive served (w : World) (date_str : str)
    : str -> list posts_page -> Prop :=
  | served_nil c : served w date_str c []
  | served_cons c page pages :
      graphql_posts w date_str c = Return page ->
      served w date_str (endCursor page) pages ->
      served w date_str c (page :: pages).

(** A character that cannot be part of a keyword: a blank or one of the
    four separators. *)
Definition is_blank_or_separator (c : char) : bool :=
  is_space c || is_separator c.

(** ** Worlds and records of the examples *)

(** A platform that iterates a set in the order of [elements], with no
    digits outside ASCII, a constant offset and glibc's unpadded short
    years. *)
Definition plain_platform : Platform :=
  {| set_order := fun l => elements (py_set l);
     set_order_enumerates := fun l => Permutation_refl _;
     unicode_digit := fun _ => None;
     shanghai_offset_before_1992 := fun _ => 8 * 3600;
     strftime_short_year := fun y =>
       if y <? 10 then [digit_char y]
       else if y <? 100 then pad2 y
       else digit_char (y / 100) :: pad2 (y mod 100) |}.

(** No network at all. *)
Definition offline : World :=
  {| platform := plain_platform;
     requests_get := fun _ => Raise ConnectionError;
     BeautifulSoup := fun _ => Return [];
     graphql_posts := fun _ _ => Raise ConnectionError;
     requests_post := fun _ => Raise ConnectionError;
     date_today := u "2025-03-08";
     date_yesterday := u "2025-03-07" |}.

(** Every page answers 200 and parses to [page]. *)
Definition serving (page : parsed_page) : World :=
  {| platform := plain_platform;
     requests_get := fun _ => Return {| status_code := 200; text := [] |};
     BeautifulSoup := fun _ => Return page;
     graphql_posts := fun _ _ => Raise ConnectionError;
     requests_post := fun _ => Raise ConnectionError;
     date_today := u "2025-03-08";
     date_yesterday := u "2025-03-07" |}.

(** A page whose only image tag is the Twitter card. *)
Definition twitter_card : tag :=
  {| tag_name := u "meta";
     tag_attrs := [(u "name", u "twitter:image");
                   (u "content", u "https://example.com/card.png")] |}.

(** A record with a picture, so that its construction needs no page. *)
Definition sample_post (votes : Z) : node :=
  {| node_id := u "7";
     node_name := u "Sample";
     node_tagline := u "A sample";
     node_description := [];
     votesCount := votes;
     createdAt := u "2025-03-07T16:01:00Z";
     featuredAt := None;
     node_website := [];
     node_url := u "https://www.producthunt.com/posts/sample";
     media := Some [ {| media_url := Some (u "https://example.com/s.png");
                        media_type := Some (u "image");
                        videoUrl := None |} ] |}.

(** ["2025年03月08日 AM12:01 (北京时间)"] *)
Definition beijing_2025_03_08_0001 : str :=
  (u "2025" ++ [24180] ++ u "03" ++ [26376] ++ u "08" ++ [26085]
   ++ u " AM12:01 (" ++ [21271; 20140; 26102; 38388] ++ u ")")%N.

(** The product built from [sample_post votes]. *)
Definition sample_product (votes : Z) : Product :=
  {| name := u "Sample";
     tagline := u "A sample";
     description := [];
     votes_count := votes;
     created_at := beijing_2025_03_08_0001;
     featured := no;
     website := [];
     url := u "https://www.producthunt.com/posts/sample";
     og_image_url := u "https://example.com/s.png";
     keyword :=
       str_join comma_space
         (keyword_tokens plain_platform (u "Sample") (u "A sample")) |}.

Definition with_createdAt (post : node) (s : str) : node :=
  {| node_id := node_id post; node_name := node_name post;
     node_tagline := node_tagline post;
     node_description := node_description post;
     votesCount := votesCount post; createdAt := s;
     featuredAt := featuredAt post; node_website := node_website post;
     node_url := node_url post; media := media post |}.

(** A record in which everything that can be empty or zero is. *)
Definition blank_post (created : str) : node :=
  {| node_id := []; node_name := []; node_tagline := [];
     node_description := []; votesCount := 0; createdAt := created;
     featuredAt := None; node_website := []; node_url := [];
     media := None |}.

(** The API serves 25 records with one vote each, then 20 records with
    two votes each, and has no further page. *)
Definition first_page : posts_page :=
  {| nodes := replicate 25 (sample_post 1);
     hasNextPage := true;
     endCursor := u "MjU" |}.

Definition second_page : posts_page :=
  {| nodes := replicate 20 (sample_post 2);
     hasNextPage := false;
     endCursor := u "NDU" |}.

Definition two_pages : World :=
  {| platform := plain_platform;
     requests_get := fun _ => Raise ConnectionError;
     BeautifulSoup := fun _ => Return [];
     graphql_posts := fun _ cursor =>
       if str_eqb cursor [] then Return first_page
       else if str_eqb cursor (u "MjU") then Return second_page
       else Raise HTTPError;
     requests_post := fun _ => Return {| status_code := 200; text := [] |};
     date_today := u "2025-03-08";
     date_yesterday := u "2025-03-07" |}.

(** A product with nothing but its votes. *)
Definition product_with_votes (v : Z) : Product :=
  {| name := u "P"; tagline := []; description := []; votes_count := v;
     created_at := []; featured := no; website := []; url := [];
     og_image_url := []; keyword := [] |}.

(** A page with an Open Graph image. *)
Definition og_image_card : tag :=
  {| tag_name := u "meta";
     tag_attrs := [(u "property", u "og:image");
                   (u "content", u "https://example.com/og.png")] |}.

(** A platform that iterates a set in the opposite order. *)
Definition reversed_platform : Platform :=
  {| set_order := fun l => rev (elements (py_set l));
     set_order_enumerates := fun l =>
       Permutation_sym (Permutation_rev (elements (py_set l)));
     unicode_digit := fun _ => None;
     shanghai_offset_before_1992 := fun _ => 8 * 3600;
     strftime_short_year := strftime_short_year plain_platform |}.

(** The API announces a next page with every reply and never serves a
    record. *)
Definition empty_pages : World :=
  {| platform := plain_platform;
     requests_get := fun _ => Raise ConnectionError;
     BeautifulSoup := fun _ => Return [];
     graphql_posts := fun _ _ =>
       Return {| nodes := []; hasNextPage := true; endCursor := u "MA" |};
     requests_post := fun _ => Return {| status_code := 200; text := [] |};
     date_today := u "2025-03-08";
     date_yesterday := u "2025-03-07" |}.


(** Deciding a closed, decidable statement by evaluation. *)
Ltac decide_by_computation :=
  lazymatch goal with
  | |- ~ ?P => apply (proj1 (bool_decide_eq_false P)); vm_compute; reflexivity
  | |- ?P => apply (bool_decide_unpack P); vm_compute; exact I
  end.

(** Proving a statement about an integer [n] of an interval with [count]
    elements, one element at a time. *)
Tactic Notation "check_interval" constr(n) integer(count) "by" tactic(tac) :=
  match goal with
  | H : ?lo <= n <= ?hi |- _ =>
      let k := eval cbv in (Z.to_nat (hi - lo + 1)) in
      let i := fresh "i" in
      let Hi := fresh "Hi" in
      assert (Z.to_nat (n - lo) < k)%nat as Hi by (clear - H; lia);
      replace n with (lo + Z.of_nat (Z.to_nat (n - lo))) by (clear - H; lia);
      revert Hi; generalize (Z.to_nat (n - lo)); intros i Hi;
      do count (destruct i as [|i]; [solve [tac]|]);
      exfalso; clear - Hi; lia
  end.

(** Evaluating the calendar tables and the comparisons with 2 at the
    arguments of the goal that are numerals. *)
Ltac no_variable t :=
  match t with
  | context [?v] => is_var v; fail 1
  | _ => idtac
  end.

Ltac eval_tables :=
  repeat match goal with
         | |- context [DAYS_IN_MONTH ?t] =>
             no_variable t;
             let v := eval cbv in (DAYS_IN_MONTH t) in
             change (DAYS_IN_MONTH t) with v
         | |- context [DAYS_BEFORE_MONTH ?t] =>
             no_variable t;
             let v := eval cbv in (DAYS_BEFORE_MONTH t) in
             change (DAYS_BEFORE_MONTH t) with v
         | |- context [2 <? ?t] =>
             no_variable t;
             let v := eval cbv in (2 <? t) in change (2 <? t) with v
         | |- context [?t =? 2] =>
             no_variable t;
             let v := eval cbv in (t =? 2) in change (t =? 2) with v
         end;
  cbn [andb].

(** * Properties *)

(** ** The [result] monad *)

Lemma try_except_any_returns {A} (body : result A) (handler : exn -> result A) :
  (forall e, returns (handler e)) ->
  returns (try_except body any_Exception handler).
Proof.
  intros Hh. destruct body as [a|e]; simpl.
  - by exists a.
  - apply Hh.
Qed.

Lemma bind_Return {A B} (a : A) (f : A -> result B) : Return a ≫= f = f a.
Proof. reflexivity. Qed.

Lemma bind_Raise {A B} (e : exn) (f : A -> result B) :
  Raise e ≫= f = Raise e.
Proof. reflexivity. Qed.

Lemma returns_not_raises {A} (m : result A) : returns m -> ~ raises m.
Proof. intros [a ->] [e He]. discriminate. Qed.

Lemma list_comprehension_length {A B} (f : A -> result B) l ys :
  list_comprehension f l = Return ys -> length ys = length l.
Proof.
  revert ys. induction l as [|x l IH]; intros ys; simpl.
  - by intros [= <-].
  - destruct (f x) as [y|e]; simpl; [|done].
    destruct (list_comprehension f l) as [ys'|e]; simpl; [|done].
    intros [= <-]. simpl. f_equal. by apply IH.
Qed.

Lemma list_comprehension_returns {A B} (f : A -> result B) l :
  Forall (fun x => returns (f x)) l -> returns (list_comprehension f l).
Proof.
  induction 1 as [|x l [y Hy] _ [ys Hys]]; simpl.
  - by exists [].
  - rewrite Hy, Hys. by exists (y :: ys).
Qed.


(** ** Strings *)

Lemma str_lstrip_idem s : str_lstrip (str_lstrip s) = str_lstrip s.
Proof.
  induction s as [|c s IH]; simpl; [done|].
  destruct (is_space c) eqn:E; [done|]. simpl. by rewrite E.
Qed.

Lemma str_lstrip_clean s : starts_clean (str_lstrip s).
Proof.
  induction s as [|c s IH]; simpl; [done|].
  destruct (is_space c) eqn:E; [done|]. by simpl.
Qed.

Lemma str_lstrip_fixed s : starts_clean s -> str_lstrip s = s.
Proof. destruct s as [|c s]; simpl; [done|]. by intros ->. Qed.

Lemma str_lstrip_keeps_last s c :
  is_space c = false -> exists t, str_lstrip (s ++ [c]) = t ++ [c].
Proof.
  intros Hc. induction s as [|d s [t IH]]; simpl.
  - rewrite Hc. by exists [].
  - destruct (is_space d); [by exists t|]. by exists (d :: s).
Qed.

Lemma str_rstrip_starts_clean s : starts_clean s -> starts_clean (str_rstrip s).
Proof.
  destruct s as [|c s]; [done|]. simpl. intros Hc. unfold str_rstrip. simpl.
  destruct (str_lstrip_keeps_last (rev s) c Hc) as [t ->].
  rewrite rev_app_distr. by simpl.
Qed.

Lemma str_strip_trimmed s : trimmed (str_strip s).
Proof.
  split.
  - apply str_rstrip_starts_clean, str_lstrip_clean.
  - unfold str_strip, str_rstrip. rewrite rev_involutive. apply str_lstrip_clean.
Qed.

Lemma trimmed_strip s : trimmed s -> str_strip s = s.
Proof.
  intros [H1 H2]. unfold str_strip, str_rstrip.
  rewrite (str_lstrip_fixed s H1), (str_lstrip_fixed (rev s) H2).
  apply rev_involutive.
Qed.

Lemma str_strip_idem s : str_strip (str_strip s) = str_strip s.
Proof. apply trimmed_strip, str_strip_trimmed. Qed.

Lemma str_truthy_nonempty s : str_truthy s = true <-> s <> [].
Proof. destruct s; simpl; split; congruence. Qed.

(** ** Keywords *)

Lemma generate_keywords_eq pf name tagline :
  generate_keywords pf name tagline
  = Return (str_join comma_space (keyword_tokens pf name tagline)).
Proof. reflexivity. Qed.

Lemma filter_Permutation_list {A} (f : A -> bool) (l l' : list A) :
  l ≡ₚ l' -> List.filter f l ≡ₚ List.filter f l'.
Proof.
  induction 1 as [|x l l' _ IH|x y l|l1 l2 l3 _ IH1 _ IH2]; simpl.
  - done.
  - destruct (f x); by rewrite IH.
  - destruct (f x), (f y); try done. apply Permutation_swap.
  - by rewrite IH1.
Qed.

(** The tokens are, up to their order, the same on every platform. *)
Lemma keyword_tokens_Permutation pf pf' name tagline :
  keyword_tokens pf name tagline ≡ₚ keyword_tokens pf' name tagline.
Proof.
  unfold keyword_tokens. apply Permutation_map, filter_Permutation_list.
  by rewrite !set_order_enumerates.
Qed.

(** What the set removes: pieces that are equal before they are trimmed. *)
Lemma keyword_pieces_deduplicated pf name tagline :
  NoDup (set_order pf (keyword_pieces name tagline))
  /\ forall piece,
       piece ∈ set_order pf (keyword_pieces name tagline)
       <-> piece ∈ keyword_pieces name tagline.
Proof.
  split.
  - rewrite set_order_enumerates. apply NoDup_elements.
  - intros piece. rewrite set_order_enumerates. unfold py_set.
    by rewrite elem_of_elements, elem_of_list_to_set.
Qed.

(** Every token is a trimmed piece, and every piece that is not blank
    gives a token. *)
Lemma keyword_tokens_spec pf name tagline t :
  t ∈ keyword_tokens pf name tagline
  <-> t <> []
      /\ exists piece, piece ∈ keyword_pieces name tagline /\ t = str_strip piece.
Proof.
  unfold keyword_tokens. rewrite list_elem_of_In, in_map_iff. split.
  - intros [w [<- Hw]]. apply filter_In in Hw as [Hw Ht].
    split; [by apply str_truthy_nonempty|]. exists w. split; [|done].
    apply (keyword_pieces_deduplicated pf). by apply list_elem_of_In.
  - intros [Ht [w [Hw ->]]]. exists w. split; [done|].
    apply filter_In. split; [|by apply str_truthy_nonempty].
    apply list_elem_of_In. by apply keyword_pieces_deduplicated.
Qed.

(** Every token is trimmed and not empty. *)
Lemma keyword_tokens_trimmed pf name tagline :
  Forall (fun t => trimmed t /\ t <> []) (keyword_tokens pf name tagline).
Proof.
  apply List.Forall_forall. intros t Ht.
  apply list_elem_of_In, keyword_tokens_spec in Ht as [Ht [piece [_ ->]]].
  split; [apply str_strip_trimmed|done].
Qed.

Lemma str_split_nonempty sep s : str_split sep s <> [].
Proof.
  destruct s as [|c s]; simpl; [done|].
  destruct (c =? sep)%N; [done|]. by destruct (str_split sep s).
Qed.

(** Splitting at a separator splits the two sides. *)
Lemma str_split_app sep a b :
  str_split sep (a ++ sep :: b) = str_split sep a ++ str_split sep b.
Proof.
  induction a as [|c a IH]; simpl.
  - by rewrite N.eqb_refl.
  - destruct (c =? sep)%N; [by rewrite IH|].
    rewrite IH. pose proof (str_split_nonempty sep a).
    by destruct (str_split sep a).
Qed.

(** No piece contains the separator, and every character of a piece is
    one of the string. *)
Lemma str_split_chars sep s w c :
  w ∈ str_split sep s -> c ∈ w -> c <> sep /\ c ∈ s.
Proof.
  revert w. induction s as [|d s IH]; intros w; simpl.
  - intros ->%list_elem_of_singleton. by intros ?%elem_of_nil.
  - destruct (d =? sep)%N eqn:E.
    + intros [->|Hw]%elem_of_cons; [by intros ?%elem_of_nil|].
      intros Hc. destruct (IH w Hw Hc). split; [done|by right].
    + apply N.eqb_neq in E. pose proof (str_split_nonempty sep s).
      destruct (str_split sep s) as [|w0 ws]; [done|].
      intros [->|Hw]%elem_of_cons.
      * intros [->|Hc]%elem_of_cons; [split; [done|by left]|].
        destruct (IH w0) as [? ?]; [by left|done|]. split; [done|by right].
      * intros Hc. destruct (IH w) as [? ?]; [by right|done|].
        split; [done|by right].
Qed.

Lemma str_replace_chars old new s c :
  c ∈ str_replace old new s -> c = new \/ (c <> old /\ c ∈ s).
Proof.
  unfold str_replace. rewrite list_elem_of_In, in_map_iff.
  intros [d [Hd Hin%list_elem_of_In]].
  destruct (d =? old)%N eqn:E; [by left|].
  apply N.eqb_neq in E. subst. by right.
Qed.

Lemma str_replace_app old new a b :
  str_replace old new (a ++ b) = str_replace old new a ++ str_replace old new b.
Proof. apply map_app. Qed.

Lemma normalize_separators_app a b :
  normalize_separators (a ++ b)
  = normalize_separators a ++ normalize_separators b.
Proof. unfold normalize_separators. by rewrite !str_replace_app. Qed.

Lemma normalize_separators_chars s c :
  c ∈ normalize_separators s ->
  c <> ampersand /\ c <> pipe /\ c <> hyphen.
Proof.
  unfold normalize_separators. intros H.
  apply str_replace_chars in H as [->|[H1 H]]; [done|].
  apply str_replace_chars in H as [->|[H2 H]]; [done|].
  apply str_replace_chars in H as [->|[H3 H]]; done.
Qed.

Lemma str_lstrip_chars s c : c ∈ str_lstrip s -> c ∈ s.
Proof.
  induction s as [|d s IH]; simpl; [done|].
  destruct (is_space d); [|done]. intros ?%IH. by right.
Qed.

Lemma elem_of_rev {A} (x : A) l : x ∈ rev l <-> x ∈ l.
Proof. rewrite !list_elem_of_In. symmetry. apply in_rev. Qed.

Lemma str_strip_chars s c : c ∈ str_strip s -> c ∈ s.
Proof.
  unfold str_strip, str_rstrip. rewrite elem_of_rev.
  intros H. apply str_lstrip_chars in H. rewrite elem_of_rev in H.
  by apply str_lstrip_chars.
Qed.

(** A separator in the tagline separates pieces. *)
Lemma keyword_pieces_app name a sep b :
  is_separator sep = true ->
  keyword_pieces name (a ++ sep :: b)
  = keyword_pieces name a ++ str_split comma (normalize_separators b).
Proof.
  intros Hsep. unfold keyword_pieces.
  assert (normalize_separators [sep] = [comma]) as Hn.
  { unfold is_separator in Hsep.
    repeat apply orb_prop in Hsep as [Hsep|Hsep];
      apply N.eqb_eq in Hsep; by subst. }
  replace (name ++ comma_space ++ a ++ sep :: b)
    with ((name ++ comma_space ++ a) ++ [sep] ++ b)
    by (by rewrite <- !app_assoc).
  rewrite (normalize_separators_app (name ++ comma_space ++ a)).
  rewrite (normalize_separators_app [sep]), Hn.
  apply str_split_app.
Qed.

(** No token contains a comma, an ampersand, a bar or a hyphen. *)
Lemma keyword_tokens_no_separator pf name tagline t c :
  t ∈ keyword_tokens pf name tagline -> c ∈ t -> is_separator c = false.
Proof.
  intros [_ [piece [Hp ->]]]%keyword_tokens_spec Hc%str_strip_chars.
  destruct (str_split_chars _ _ _ _ Hp Hc) as [Hcomma Hn].
  apply normalize_separators_chars in Hn as (? & ? & ?).
  unfold is_separator. repeat apply orb_false_intro; by apply N.eqb_neq.
Qed.

(** C1 (the code falls short of the claim): for the name ["Notion"] and
    the tagline ["Notion, but faster"] the keyword string joins the tokens
    Notion, Notion and but faster, in the order the set gives them: the
    token Notion occurs twice, because the pieces ["Notion"] and
    [" Notion"] are put into the set before they are trimmed. *)
Theorem generate_keywords_repeats_token (pf : Platform) :
  let tokens := keyword_tokens pf (u "Notion") (u "Notion, but faster") in
  generate_keywords pf (u "Notion") (u "Notion, but faster")
  = Return (str_join comma_space tokens)
  /\ tokens ≡ₚ [u "Notion"; u "Notion"; u "but faster"]
  /\ ~ NoDup tokens.
Proof.
  cbv zeta. split; [reflexivity|].
  rewrite (keyword_tokens_Permutation pf plain_platform).
  split; decide_by_computation.
Qed.

(** C2 (counterexample): the tokens of Venice and
    ["Private & censorship-resistant AI"] are not Venice, Private and
    censorship-resistant AI. *)
Lemma venice_keywords_not_as_claimed :
  ~ keyword_tokens plain_platform (u "Venice")
      (u "Private & censorship-resistant AI")
    ≡ₚ [u "Venice"; u "Private"; u "censorship-resistant AI"].
Proof. decide_by_computation. Qed.

(** C2 (amended): the tokens of Venice and
    ["Private & censorship-resistant AI"] are exactly Venice, Private,
    censorship and resistant AI, each once: the hyphen separates tokens as
    [&] and [|] do.  With the trailing text of the fallback record the
    token Unlock unlimited intelligence is added and Venice still occurs
    once.  Whatever text follows the tagline after [" |"], these four are
    among the tokens and censorship-resistant AI is not. *)
Theorem venice_keywords (pf : Platform) :
  keyword_tokens pf (u "Venice") (u "Private & censorship-resistant AI")
  ≡ₚ [u "Venice"; u "Private"; u "censorship"; u "resistant AI"]
  /\ keyword_tokens pf (u "Venice")
       (u "Private & censorship-resistant AI | Unlock unlimited intelligence")
     ≡ₚ [u "Venice"; u "Private"; u "censorship"; u "resistant AI";
         u "Unlock unlimited intelligence"]
  /\ forall trailing : str,
       let tokens :=
         keyword_tokens pf (u "Venice")
           (u "Private & censorship-resistant AI |" ++ trailing) in
       u "Venice" ∈ tokens /\ u "Private" ∈ tokens
       /\ u "censorship" ∈ tokens /\ u "resistant AI" ∈ tokens
       /\ u "censorship-resistant AI" ∉ tokens.
Proof.
  rewrite !(keyword_tokens_Permutation pf plain_platform).
  split; [decide_by_computation|]. split; [decide_by_computation|].
  intros trailing tokens.
  assert (forall piece,
            piece ∈ [u "Venice"; u " Private "; u " censorship";
                     u "resistant AI "] ->
            str_strip piece ∈ tokens) as Hin.
  { intros piece Hp. apply keyword_tokens_spec. split.
    - repeat apply elem_of_cons in Hp as [->|Hp]; try done.
      by apply elem_of_nil in Hp.
    - exists piece. split; [|done].
      change (u "Private & censorship-resistant AI |" ++ trailing)
        with (u "Private & censorship-resistant AI " ++ pipe :: trailing).
      rewrite keyword_pieces_app by done.
      apply elem_of_app. left. exact Hp. }
  repeat split.
  - apply (Hin (u "Venice")). by left.
  - apply (Hin (u " Private ")). right. by left.
  - apply (Hin (u " censorship")). do 2 right. by left.
  - apply (Hin (u "resistant AI ")). do 3 right. by left.
  - intros Ht.
    assert (is_separator hyphen = false) as Hs; [|done].
    apply (keyword_tokens_no_separator pf _ _ _ _ Ht).
    unfold hyphen. decide_by_computation.
Qed.

(** ** Image URL *)



Lemma fetch_og_image_url_returns w self_url :
  returns (fetch_og_image_url w self_url).
Proof. apply try_except_any_returns. intros _. by exists []. Qed.


Lemma get_image_url_from_media_spec w self_url media :
  get_image_url_from_media w self_url media
  = match first_media_url media with
    | Some (c :: image_url) => Return (c :: image_url)
    | _ => fetch_og_image_url w self_url
    end.
Proof.
  unfold get_image_url_from_media.
  destruct (fetch_og_image_url_returns w self_url) as [backup Hb].
  destruct (first_media_url media) as [[|c image_url]|]; simpl; try done;
    rewrite Hb; simpl; by destruct backup.
Qed.

(** Image resolution never raises. *)
Lemma get_image_url_from_media_returns w self_url media :
  returns (get_image_url_from_media w self_url media).
Proof.
  rewrite get_image_url_from_media_spec.
  destruct (first_media_url media) as [[|c image_url]|];
    try apply fetch_og_image_url_returns.
  by exists (c :: image_url).
Qed.

(** C3 (the code falls short of the claim): a product without media whose
    page answers 200 and carries a [twitter:image] meta tag and no
    [og:image] tag gets the empty string, not the content of the tag. *)
Theorem twitter_image_is_never_used :
  List.find (tag_matches (Some (u "meta")) [(u "name", u "twitter:image")])
    [twitter_card] = Some twitter_card
  /\ tag_getitem twitter_card (u "content")
     = Return (u "https://example.com/card.png")
  /\ get_image_url_from_media (serving [twitter_card])
       (u "https://www.producthunt.com/posts/ai-code-reviewer") (Some [])
     = Return [].
Proof. repeat split; vm_compute; reflexivity. Qed.

(** ** Timestamps *)

Lemma format_regex_utc_format : format_regex utc_format = Return utc_regex.
Proof. reflexivity. Qed.

Section Timestamps.

Context (pf : Platform).

Lemma rmatch_char_sound ok s m :
  In m (rmatch_char ok s) ->
  exists c, ok c = true /\ matched m = [c] /\ groups m = []
            /\ s = c :: remaining m.
Proof.
  destruct s as [|c s]; simpl; [done|].
  destruct (ok c) eqn:E; simpl; [|done].
  intros [<-|[]]. by exists c.
Qed.

(** Whatever the matcher finds is a prefix of the input that belongs to
    the language of the expression. *)
Lemma rmatch_sound r s m :
  In m (rmatch pf r s) ->
  s = matched m ++ remaining m /\ in_language pf r (matched m).
Proof.
  revert s m. induction r as [|c| |lo hi|r1 IH1 r2 IH2|r1 IH1 r2 IH2|name r IH];
    intros s m; simpl.
  - intros [<-|[]]. split; [done|constructor].
  - intros (c' & Hc & -> & _ & ->)%rmatch_char_sound.
    split; [done|]. constructor. by apply N.eqb_eq.
  - intros (c' & Hc & -> & _ & ->)%rmatch_char_sound.
    split; [done|]. destruct (digit_value pf c') as [v|] eqn:E; [|done].
    by econstructor.
  - intros (c' & Hc & -> & _ & ->)%rmatch_char_sound.
    split; [done|]. constructor.
    apply andb_true_iff in Hc as [?%N.leb_le ?%N.leb_le]. done.
  - intros (m1 & H1 & (m2 & <- & H2)%in_map_iff)%in_flat_map.
    destruct (IH1 _ _ H1) as [-> L1]. destruct (IH2 _ _ H2) as [E2 L2].
    simpl. split; [by rewrite E2, app_assoc|by constructor].
  - intros [H|H]%in_app_or.
    + destruct (IH1 _ _ H). split; [done|by apply lang_alt_l].
    + destruct (IH2 _ _ H). split; [done|by apply lang_alt_r].
  - intros (m1 & <- & H1)%in_map_iff. destruct (IH _ _ H1).
    simpl. split; [done|by constructor].
Qed.

(** A string that [strptime] accepts belongs to the language of the
    expression derived from the format. *)
Lemma strptime_in_language s dt :
  strptime pf s utc_format = Return dt -> in_language pf utc_regex s.
Proof.
  unfold strptime. rewrite format_regex_utc_format. cbn [mbind result_bind].
  destruct (rmatch pf utc_regex s) as [|found rest] eqn:E; [done|].
  destruct (remaining found) as [|c r] eqn:Hr; [|done]. intros _.
  destruct (rmatch_sound utc_regex s found) as [Hs HL].
  { rewrite E. by left. }
  rewrite Hr, app_nil_r in Hs. by subst.
Qed.

Lemma py_int_ValueError s e : py_int pf s = Raise e -> e = ValueError.
Proof.
  unfold py_int. destruct (str_strip s) as [|c ds]; [by intros [= <-]|].
  generalize (c :: ds). clear. intros ds.
  assert (forall acc : result Z,
            (forall e', acc = Raise e' -> e' = ValueError) ->
            fold_left
              (fun acc c =>
                 n ← acc;
                 match digit_value pf c with
                 | Some v => Return (10 * n + v)
                 | None => Raise ValueError
                 end) ds acc = Raise e -> e = ValueError) as H.
  { induction ds as [|c ds IH]; intros acc Hacc; simpl; [by apply Hacc|].
    apply IH. intros e'. destruct acc as [n|e0]; simpl.
    - destruct (digit_value pf c); [done|]. by intros [= <-].
    - intros [= <-]. by apply Hacc. }
  apply H. done.
Qed.

Lemma group_int_ValueError m key d e :
  group_int pf m key d = Raise e -> e = ValueError.
Proof.
  unfold group_int. destruct (List.find _ _); [apply py_int_ValueError|done].
Qed.

Lemma make_datetime_ValueError y m d h mi s e :
  make_datetime y m d h mi s = Raise e -> e = ValueError.
Proof. unfold make_datetime. destruct (_ && _); [done|]. by intros [= <-]. Qed.

(** [strptime] raises nothing but [ValueError]. *)
Lemma strptime_ValueError s e :
  strptime pf s utc_format = Raise e -> e = ValueError.
Proof.
  unfold strptime. rewrite format_regex_utc_format.
  cbn [mbind result_bind].
  destruct (rmatch pf utc_regex s) as [|found _]; [by intros [= <-]|].
  destruct (str_truthy (remaining found)); [by intros [= <-]|].
  do 6 (lazymatch goal with
        | |- (?g ≫= _) = _ -> _ =>
            let H := fresh "H" in
            destruct g eqn:H; cbn [mbind result_bind];
            [|intros [= <-]; by apply group_int_ValueError in H]
        end).
  apply make_datetime_ValueError.
Qed.

Lemma convert_raises_of_strptime s e :
  strptime pf s utc_format = Raise e ->
  convert_to_beijing_time pf s = Raise e.
Proof. unfold convert_to_beijing_time. by intros ->. Qed.

End Timestamps.

(** C7: the timestamp ["2025-03-07T16:01:00Z"] is read as 16:01 on 7 March
    2025, moved by eight hours to 00:01 on 8 March 2025, and rendered as
    ["2025年03月08日 AM12:01 (北京时间)"]: a date, the AM marker and the
    label of the zone. *)
Theorem convert_to_beijing_time_example (pf : Platform) :
  let utc := {| year := 2025; month := 3; day := 7;
                hour := 16; minute := 1; second := 0 |} in
  strptime pf (u "2025-03-07T16:01:00Z") utc_format = Return utc
  /\ shanghai_utcoffset pf utc = 8 * 3600
  /\ astimezone_shanghai pf utc
     = Return {| year := 2025; month := 3; day := 8;
                 hour := 0; minute := 1; second := 0 |}
  /\ convert_to_beijing_time pf (u "2025-03-07T16:01:00Z")
     = Return beijing_2025_03_08_0001.
Proof. repeat split; vm_compute; reflexivity. Qed.




(** ** Construction *)

Lemma generate_keywords_returns pf name tagline :
  returns (generate_keywords pf name tagline).
Proof. eexists. apply generate_keywords_eq. Qed.

(** What the constructor returns when the timestamp converts. *)
Lemma Product_init_eq w post created :
  convert_to_beijing_time (platform w) (createdAt post) = Return created ->
  exists image,
    get_image_url_from_media w (node_url post) (media post) = Return image
    /\ Product_init w post
       = Return {| name := node_name post;
                   tagline := node_tagline post;
                   description := node_description post;
                   votes_count := votesCount post;
                   created_at := created;
                   featured := featured_flag (featuredAt post);
                   website := node_website post;
                   url := node_url post;
                   og_image_url := image;
                   keyword :=
                     str_join comma_space
                       (keyword_tokens (platform w) (node_name post)
                          (node_tagline post)) |}.
Proof.
  intros Hc.
  destruct (get_image_url_from_media_returns w (node_url post) (media post))
    as [image Hi].
  exists image. split; [done|].
  unfold Product_init. by rewrite Hc, Hi, generate_keywords_eq.
Qed.

Lemma Product_init_raises w post e :
  convert_to_beijing_time (platform w) (createdAt post) = Raise e ->
  Product_init w post = Raise e.
Proof. unfold Product_init. by intros ->. Qed.




(** ** Sorting by votes *)

Lemma insert_by_votes_Permutation x l : insert_by_votes x l ≡ₚ x :: l.
Proof.
  induction l as [|y l IH]; simpl; [done|].
  destruct (votesCount y <=? votesCount x); [done|].
  rewrite IH. apply Permutation_swap.
Qed.

Lemma sorted_by_votes_Permutation l : sorted_by_votes l ≡ₚ l.
Proof.
  induction l as [|x l IH]; simpl; [done|].
  rewrite insert_by_votes_Permutation. by rewrite IH.
Qed.

Lemma insert_by_votes_descending x l :
  descending l -> descending (insert_by_votes x l).
Proof.
  induction l as [|y l IH]; simpl; [done|].
  intros [Hy Hl]. destruct (votesCount y <=? votesCount x) eqn:E; simpl.
  - apply Z.leb_le in E. repeat split; try done.
    constructor; [done|]. eapply List.Forall_impl; [|exact Hy].
    simpl. intros; lia.
  - apply Z.leb_gt in E. split; [|by apply IH].
    rewrite insert_by_votes_Permutation. constructor; [lia|done].
Qed.

Lemma sorted_by_votes_descending l : descending (sorted_by_votes l).
Proof.
  induction l as [|x l IH]; simpl; [done|]. by apply insert_by_votes_descending.
Qed.

(** A list already in descending order is left as it is: equal votes
    keep their order. *)
Lemma sorted_by_votes_fixed l : descending l -> sorted_by_votes l = l.
Proof.
  induction l as [|x l IH]; simpl; [done|].
  intros [Hx Hl]. rewrite IH by done.
  destruct Hx as [|y l' Hy _]; simpl; [done|].
  apply Z.leb_le in Hy. by rewrite Hy.
Qed.

(** ** The fetch loop *)

Lemma loop_condition_true st :
  loop_condition st = true
  <-> has_next_page st = true /\ (length (all_posts st) < 30)%nat.
Proof.
  unfold loop_condition. rewrite andb_true_iff, Nat.ltb_lt. done.
Qed.

Lemma loop_condition_false st :
  loop_condition st = false
  <-> has_next_page st = false \/ (30 <= length (all_posts st))%nat.
Proof.
  unfold loop_condition. rewrite andb_false_iff, Nat.ltb_ge. done.
Qed.

Section FetchLoop.

Context (w : World) (date_str : str).

Lemma fetch_loop_done fuel st :
  loop_condition st = false ->
  fetch_loop w date_str fuel st = Some (Return st).
Proof. intros H. destruct fuel; simpl; by rewrite H. Qed.

Lemma fetch_loop_step fuel st :
  loop_condition st = true ->
  fetch_loop w date_str (S fuel) st
  = match fetch_step w date_str st with
    | Return st' => fetch_loop w date_str fuel st'
    | Raise e => Some (Raise e)
    end.
Proof. intros H. simpl. by rewrite H. Qed.

Lemma fetch_loop_iterates fuel st st' :
  fetch_loop w date_str fuel st = Some (Return st') ->
  iterates w date_str st st'.
Proof.
  revert st. induction fuel as [|fuel IH]; intros st.
  - simpl. destruct (loop_condition st) eqn:E; [done|].
    intros [= <-]. by constructor.
  - destruct (loop_condition st) eqn:E.
    + rewrite fetch_loop_step by done.
      destruct (fetch_step w date_str st) as [st1|e] eqn:Hs; [|done].
      intros H. eapply iterates_step; eauto.
    + rewrite fetch_loop_done by done. intros [= <-]. by constructor.
Qed.

Lemma iterates_fetch_loop st st' :
  iterates w date_str st st' ->
  exists fuel, forall fuel', (fuel <= fuel')%nat ->
    fetch_loop w date_str fuel' st = Some (Return st').
Proof.
  induction 1 as [st H|st st1 st' Hc Hs _ [fuel IH]].
  - exists O. intros fuel' _. by apply fetch_loop_done.
  - exists (S fuel). intros [|fuel'] Hle; [lia|].
    rewrite fetch_loop_step, Hs by done. apply IH. lia.
Qed.

Lemma iterates_exit st st' :
  iterates w date_str st st' ->
  has_next_page st' = false \/ (30 <= length (all_posts st'))%nat.
Proof.
  induction 1 as [st H|]; [|done]. by apply loop_condition_false.
Qed.

(** More fuel never changes an answer. *)
Lemma fetch_loop_mono fuel fuel' st r :
  (fuel <= fuel')%nat ->
  fetch_loop w date_str fuel st = Some r ->
  fetch_loop w date_str fuel' st = Some r.
Proof.
  revert fuel' st. induction fuel as [|fuel IH]; intros fuel' st Hle.
  - simpl. destruct (loop_condition st) eqn:E; [done|].
    intros [= <-]. by apply fetch_loop_done.
  - destruct fuel' as [|fuel']; [lia|].
    destruct (loop_condition st) eqn:E.
    + rewrite !fetch_loop_step by done.
      destruct (fetch_step w date_str st); [|done]. apply IH. lia.
    + by rewrite !fetch_loop_done.
Qed.

(** The loop ends when every page served brings at least one record:
    thirty iterations are enough. *)
Lemma fetch_loop_terminates fuel st :
  (forall c page, graphql_posts w date_str c = Return page -> nodes page <> []) ->
  (30 <= fuel + length (all_posts st))%nat ->
  is_Some (fetch_loop w date_str fuel st).
Proof.
  intros Hpages. revert st. induction fuel as [|fuel IH]; intros st Hlen.
  - simpl. destruct (loop_condition st) eqn:E; [|done].
    apply loop_condition_true in E as [_ E]. lia.
  - destruct (loop_condition st) eqn:E.
    + rewrite fetch_loop_step by done. unfold fetch_step.
      destruct (graphql_posts w date_str (cursor st)) as [page|e] eqn:Hp; simpl.
      * apply IH. simpl. rewrite length_app.
        specialize (Hpages _ _ Hp). destruct (nodes page); [done|simpl; lia].
      * by destruct (is_RequestException e).
    + by rewrite fetch_loop_done.
Qed.

(** Two pages, the first short of thirty records, the two together at
    least thirty: two requests, and the loop ends. *)
Lemma fetch_loop_two_pages p1 c1 p2 more c2 fuel :
  graphql_posts w date_str []
  = Return {| nodes := p1; hasNextPage := true; endCursor := c1 |} ->
  graphql_posts w date_str c1
  = Return {| nodes := p2; hasNextPage := more; endCursor := c2 |} ->
  (length p1 < 30 <= length (p1 ++ p2))%nat ->
  (2 <= fuel)%nat ->
  fetch_loop w date_str fuel initial_fetch_state
  = Some (Return {| all_posts := p1 ++ p2; has_next_page := more;
                    cursor := c2; requests_sent := [[]; c1] |}).
Proof.
  intros H1 H2 [Hlt Hge] Hfuel.
  destruct fuel as [|[|fuel]]; [lia..|].
  set (st1 := {| all_posts := p1; has_next_page := true; cursor := c1;
                 requests_sent := [[]] |}).
  assert (fetch_step w date_str initial_fetch_state = Return st1) as Hs1.
  { unfold fetch_step. cbn. by rewrite H1. }
  assert (loop_condition st1 = true) as Hc1.
  { by apply loop_condition_true. }
  rewrite fetch_loop_step, Hs1 by done.
  rewrite fetch_loop_step by done.
  unfold fetch_step. cbn. rewrite H2. cbn.
  apply fetch_loop_done, loop_condition_false. by right.
Qed.

End FetchLoop.

Lemma fetch_product_hunt_data_eq w fuel :
  fetch_product_hunt_data w fuel
  = match fetch_loop w (date_yesterday w) fuel initial_fetch_state with
    | None => None
    | Some (Raise e) => Some (Raise e)
    | Some (Return st) =>
        Some (list_comprehension (Product_init w)
                (take 30 (sorted_by_votes (all_posts st))))
    end.
Proof. reflexivity. Qed.

Lemma fetch_at_most_30 w fuel products :
  fetch_product_hunt_data w fuel = Some (Return products) ->
  (length products <= 30)%nat.
Proof.
  rewrite fetch_product_hunt_data_eq.
  destruct (fetch_loop _ _ _ _) as [[st|e]|]; [|done..].
  intros [= H]. apply list_comprehension_length in H.
  rewrite H, length_take. lia.
Qed.


(** ** Publishing *)

Lemma getitem_0 {A} (x : A) l : getitem (x :: l) 0 = Return x.
Proof. reflexivity. Qed.

(** An index between 0 and the length reads that element. *)
Lemma getitem_lookup {A} (l : list A) (i : nat) x :
  l !! i = Some x -> getitem l (Z.of_nat i) = Return x.
Proof.
  intros H. unfold getitem.
  destruct (Z.of_nat i <? 0) eqn:E; [apply Z.ltb_lt in E; lia|].
  rewrite E, Nat2Z.id. by rewrite H.
Qed.

Lemma getitem_last_or_tenth {A} (l : list A) :
  l <> [] ->
  exists x, l !! Nat.min 9 (length l - 1) = Some x
            /\ getitem l (Z.min 9 (Z.of_nat (length l) - 1)) = Return x.
Proof.
  intros Hl.
  assert (0 < length l)%nat as Hlen by (destruct l; [done|simpl; lia]).
  destruct (lookup_lt_is_Some_2 l (Nat.min 9 (length l - 1))) as [x Hx]; [lia|].
  exists x. split; [done|].
  replace (Z.min 9 (Z.of_nat (length l) - 1))
    with (Z.of_nat (Nat.min 9 (length l - 1))) by lia.
  by apply getitem_lookup.
Qed.

Lemma take_min_length {A} (l : list A) n :
  take (Nat.min n (length l)) l = take n l.
Proof.
  destruct (Nat.le_ge_cases n (length l)) as [H|H].
  - by rewrite Nat.min_l.
  - rewrite Nat.min_r by done. by rewrite !take_ge.
Qed.

Section Publishing.

Context (w : World).

Lemma send_to_webhook_eq products data :
  build_document w products = Return data ->
  exists ok, send_to_webhook w products
             = Return {| posted := data; delivered := ok |}.
Proof.
  intros H. unfold send_to_webhook. rewrite H. cbn [mbind result_bind].
  destruct (requests_post w data) as [response|e]; cbn.
  - destruct (raise_for_status response) as [[]|e]; cbn; by eexists.
  - by eexists.
Qed.

(** The document of an empty list. *)
Lemma build_document_nil :
  build_document w []
  = Return {| doc_date := date_today w; doc_source := u "Product Hunt API";
              product_count := 0; total_votes := 0; avg_votes := 0;
              max_votes := 0; min_votes := 0; products_data := [] |}.
Proof. reflexivity. Qed.

(** The document of a list that is not empty. *)
Lemma build_document_cons p l :
  let products := p :: l in
  exists lowest,
    products !! Nat.min 9 (length products - 1) = Some lowest
    /\ build_document w products
       = Return {| doc_date := date_today w;
                   doc_source := u "Product Hunt API";
                   product_count := Z.of_nat (Nat.min 10 (length products));
                   total_votes := sum_votes (take 10 products);
                   avg_votes :=
                     sum_votes (take 10 products)
                     / Z.of_nat (Nat.min 10 (length products));
                   max_votes := votes_count p;
                   min_votes := votes_count lowest;
                   products_data :=
                     imap product_info_of (take 10 products) |}.
Proof.
  intros products.
  destruct (getitem_last_or_tenth products) as [lowest [Hl Hg]]; [done|].
  exists lowest. split; [done|].
  assert (length (take 10 products) = Nat.min 10 (length products)) as Hlen
    by apply length_take.
  assert (getitem products 0 = Return p) as H0 by apply getitem_0.
  assert (list_truthy products = true) as Ht by done.
  assert ((Z.of_nat (Nat.min 10 (length products)) =? 0) = false) as Hz.
  { apply Z.eqb_neq. unfold products. simpl length. lia. }
  clearbody products.
  unfold build_document, floordiv.
  rewrite Ht, Hlen, Hz, H0, Hg.
  cbn [mbind result_bind fmap result_fmap].
  by rewrite length_imap, Hlen.
Qed.



End Publishing.

Lemma sum_votes_map l :
  sum_votes l = fold_right Z.add 0 (List.map votes_count l).
Proof. induction l as [|p l IH]; simpl; [done|]. by rewrite IH. Qed.

(** C6: for every list of products the webhook is sent a document whose
    total is the sum of the votes of the first min(10, n) products, whose
    average is the floor of the total divided by min(10, n), or 0 for the
    empty list, whose maximum is the votes of the first product and whose
    minimum is the votes of the product at index min(9, n-1) (both 0 for
    the empty list); for ten products with the votes 100, 90, ..., 10 the
    total is 550, the average 55, the maximum 100 and the minimum 10.
    The order of the list is not used. *)
Theorem published_statistics :
  (forall (w : World) (products : list Product),
     let n := length products in
     exists s,
       send_to_webhook w products = Return s
       /\ total_votes (posted s) = sum_votes (take (Nat.min 10 n) products)
       /\ avg_votes (posted s)
          = match n with
            | O => 0
            | _ => total_votes (posted s) / Z.of_nat (Nat.min 10 n)
            end
       /\ max_votes (posted s) = default 0 (votes_count <$> products !! O)
       /\ min_votes (posted s)
          = default 0 (votes_count <$> products !! Nat.min 9 (n - 1)))
  /\ (forall (w : World) (products : list Product),
        List.map votes_count products
        = [100; 90; 80; 70; 60; 50; 40; 30; 20; 10] ->
        exists s,
          send_to_webhook w products = Return s
          /\ total_votes (posted s) = 550
          /\ avg_votes (posted s) = 55
          /\ max_votes (posted s) = 100
          /\ min_votes (posted s) = 10).
Proof.
  assert (forall (w : World) (products : list Product),
     let n := length products in
     exists s,
       send_to_webhook w products = Return s
       /\ total_votes (posted s) = sum_votes (take (Nat.min 10 n) products)
       /\ avg_votes (posted s)
          = match n with
            | O => 0
            | _ => total_votes (posted s) / Z.of_nat (Nat.min 10 n)
            end
       /\ max_votes (posted s) = default 0 (votes_count <$> products !! O)
       /\ min_votes (posted s)
          = default 0 (votes_count <$> products !! Nat.min 9 (n - 1)))
    as General.
  { intros w products. cbv zeta. rewrite take_min_length.
    destruct products as [|p l] eqn:Hp.
    - destruct (send_to_webhook_eq w [] _ (build_document_nil w)) as [ok ->].
      eexists. split; [reflexivity|]. by repeat split.
    - rewrite <- Hp.
      destruct (build_document_cons w p l) as [lowest [Hl Hd]].
      rewrite <- Hp in Hl, Hd.
      destruct (send_to_webhook_eq w _ _ Hd) as [ok ->].
      eexists. split; [reflexivity|].
      cbn [posted total_votes avg_votes max_votes min_votes].
      rewrite Hl. repeat split; rewrite Hp; reflexivity. }
  split; [exact General|].
  intros w products Hvotes.
  destruct (General w products) as [s (Hs & Ht & Ha & Hmax & Hmin)].
  exists s. split; [done|].
  assert (length products = 10%nat) as Hn
    by (by rewrite <- (length_map votes_count), Hvotes).
  rewrite Hn in Ht, Ha, Hmin. cbn in Ht, Ha, Hmin.
  rewrite sum_votes_map, <- (firstn_map votes_count), Hvotes in Ht.
  assert (votes_count <$> products
          = [100; 90; 80; 70; 60; 50; 40; 30; 20; 10]) as Hvotes'
    by (rewrite <- Hvotes; reflexivity).
  rewrite <- !list_lookup_fmap, Hvotes' in Hmax, Hmin.
  rewrite Ht in Ha. by repeat split.
Qed.

Lemma published_statistics_witness :
  exists s,
    send_to_webhook offline
      (List.map product_with_votes [100; 90; 80; 70; 60; 50; 40; 30; 20; 10])
    = Return s
    /\ total_votes (posted s) = 550
    /\ avg_votes (posted s) = 55
    /\ max_votes (posted s) = 100
    /\ min_votes (posted s) = 10.
Proof.
  apply (proj2 published_statistics offline). reflexivity.
Defined.


(** ** Pagination *)

(** C4 (counterexample): the API serves 25 records with one vote each and
    then 20 records with two votes each.  The function returns the twenty
    records of the second page followed by ten of the first; the first
    thirty records by page order, sorted by votes, would be five records
    of the second page followed by the twenty-five of the first. *)
Lemma fetch_is_not_the_first_30_by_page_order :
  fetch_product_hunt_data two_pages 2
  = Some (Return (replicate 20 (sample_product 2)
                  ++ replicate 10 (sample_product 1)))
  /\ list_comprehension (Product_init two_pages)
       (sorted_by_votes (take 30 (nodes first_page ++ nodes second_page)))
     = Return (replicate 5 (sample_product 2)
               ++ replicate 25 (sample_product 1)).
Proof. split; vm_compute; reflexivity. Qed.

(** C4 (amended): whatever the API answers, the function returns at most
    30 records.  The loop runs an iteration exactly while a next page is
    announced and fewer than 30 records are collected, so it ends as soon
    as 30 records are collected or no next page exists.  When a first
    page of fewer than 30 records and a second page bring at least 30
    together (25 and 20, or 25 and 25), two requests are sent and the
    result is built from the first 30 of all collected records after a
    stable sort by descending votes: the 30 records with the most votes
    among them.  These are the first 30 by page order when the pages
    arrive in descending order of votes. *)
Theorem fetch_pagination :
  (forall w fuel products,
     fetch_product_hunt_data w fuel = Some (Return products) ->
     (length products <= 30)%nat)
  /\ (forall w date_str st st',
        (exists fuel, fetch_loop w date_str fuel st = Some (Return st'))
        <-> iterates w date_str st st')
  /\ (forall w date_str st st',
        iterates w date_str st st' ->
        has_next_page st' = false \/ (30 <= length (all_posts st'))%nat)
  /\ (forall w p1 c1 p2 more c2 fuel,
        graphql_posts w (date_yesterday w) []
        = Return {| nodes := p1; hasNextPage := true; endCursor := c1 |} ->
        graphql_posts w (date_yesterday w) c1
        = Return {| nodes := p2; hasNextPage := more; endCursor := c2 |} ->
        (length p1 < 30 <= length (p1 ++ p2))%nat ->
        (2 <= fuel)%nat ->
        fetch_loop w (date_yesterday w) fuel initial_fetch_state
        = Some (Return {| all_posts := p1 ++ p2; has_next_page := more;
                          cursor := c2; requests_sent := [[]; c1] |})
        /\ fetch_product_hunt_data w fuel
           = Some (list_comprehension (Product_init w)
                     (take 30 (sorted_by_votes (p1 ++ p2))))
        /\ sorted_by_votes (p1 ++ p2) ≡ₚ p1 ++ p2
        /\ descending (sorted_by_votes (p1 ++ p2))
        /\ (descending (p1 ++ p2) ->
            take 30 (sorted_by_votes (p1 ++ p2)) = take 30 (p1 ++ p2))).
Proof.
  split; [exact fetch_at_most_30|].
  split.
  { intros w date_str st st'. split.
    - intros [fuel H]. by eapply fetch_loop_iterates.
    - intros H. destruct (iterates_fetch_loop _ _ _ _ H) as [fuel Hf].
      exists fuel. by apply Hf. }
  split; [exact iterates_exit|].
  intros w p1 c1 p2 more c2 fuel H1 H2 Hlen Hfuel.
  pose proof (fetch_loop_two_pages w _ p1 c1 p2 more c2 fuel H1 H2 Hlen Hfuel)
    as Hloop.
  split; [exact Hloop|].
  split; [by rewrite fetch_product_hunt_data_eq, Hloop|].
  split; [apply sorted_by_votes_Permutation|].
  split; [apply sorted_by_votes_descending|].
  intros Hd. by rewrite sorted_by_votes_fixed.
Qed.

Lemma fetch_pagination_witness :
  fetch_loop two_pages (date_yesterday two_pages) 2 initial_fetch_state
  = Some (Return {| all_posts := nodes first_page ++ nodes second_page;
                    has_next_page := false;
                    cursor := u "NDU";
                    requests_sent := [[]; u "MjU"] |})
  /\ fetch_product_hunt_data two_pages 2
     = Some (list_comprehension (Product_init two_pages)
               (take 30
                  (sorted_by_votes (nodes first_page ++ nodes second_page)))).
Proof.
  destruct (proj2 (proj2 (proj2 fetch_pagination)) two_pages
              (nodes first_page) (u "MjU") (nodes second_page) false (u "NDU")
              2%nat)
    as (Hloop & Hfetch & _).
  - reflexivity.
  - reflexivity.
  - simpl. lia.
  - lia.
  - split; [exact Hloop|exact Hfetch].
Defined.

(** ** The job *)

Lemma convert_mock_timestamps pf :
  convert_to_beijing_time pf (u "2025-03-07T16:01:00Z")
  = Return beijing_2025_03_08_0001
  /\ returns (convert_to_beijing_time pf (u "2025-03-07T14:30:00Z")).
Proof. split; [|eexists]; vm_compute; reflexivity. Qed.

(** The fallback data never fails to build: three products, whatever the
    network does for the third, which has no media. *)
Lemma fetch_mock_data_returns w :
  exists products,
    fetch_mock_data w = Return products
    /\ length products = 3%nat
    /\ List.map name products
       = [u "Venice"; u "Mistral OCR"; u "AI Code Reviewer"]
    /\ List.map votes_count products = [566; 477; 324].
Proof.
  destruct (convert_mock_timestamps (platform w)) as [H1 [created3 H3]].
  unfold fetch_mock_data, mock_products.
  cbn [list_comprehension].
  match goal with
  | |- context [Product_init w ?p ≫= _] =>
      destruct (Product_init_eq w p _ H1) as [i1 [_ ->]]
  end.
  cbn [mbind result_bind].
  match goal with
  | |- context [Product_init w ?p ≫= _] =>
      destruct (Product_init_eq w p _ H1) as [i2 [_ ->]]
  end.
  cbn [mbind result_bind].
  match goal with
  | |- context [Product_init w ?p ≫= _] =>
      destruct (Product_init_eq w p _ H3) as [i3 [_ ->]]
  end.
  cbn [mbind result_bind mret result_ret].
  eexists. split; [reflexivity|]. by repeat split.
Qed.





(** * Further properties of the code *)

(** X1: on every platform and for every name and tagline, each keyword
    token is trimmed, not empty and free of the four separators. *)
Theorem keyword_tokens_are_clean (pf : Platform) (name tagline : str) :
  Forall
    (fun t => trimmed t /\ t <> []
              /\ Forall (fun c => is_separator c = false) t)
    (keyword_tokens pf name tagline).
Proof.
  apply List.Forall_forall. intros t Ht. apply list_elem_of_In in Ht.
  pose proof (keyword_tokens_trimmed pf name tagline) as Hall.
  rewrite List.Forall_forall in Hall.
  destruct (Hall t) as [Htrim Hne]; [by apply list_elem_of_In|].
  split; [done|]. split; [done|].
  apply List.Forall_forall. intros c Hc%list_elem_of_In.
  by eapply keyword_tokens_no_separator.
Qed.

(** X2: the keyword tokens are, up to their order, the pieces of the
    normalised text with later copies of a piece removed, then the blank
    pieces dropped and the others trimmed: duplicates are removed before
    trimming, not after. *)
Theorem keyword_tokens_deduplicate_pieces (pf : Platform)
    (name tagline : str) :
  keyword_tokens pf name tagline
  ≡ₚ List.map str_strip
       (List.filter (fun word => str_truthy (str_strip word))
          (remove_dups (keyword_pieces name tagline))).
Proof.
  unfold keyword_tokens. apply Permutation_map, filter_Permutation_list.
  destruct (keyword_pieces_deduplicated pf name tagline) as [Hnd Hin].
  apply NoDup_Permutation; [done|apply NoDup_remove_dups|].
  intros piece. by rewrite Hin, elem_of_remove_dups.
Qed.



Lemma filter_insert_by_votes v x l :
  List.filter (fun y => votesCount y =? v) (insert_by_votes x l)
  = List.filter (fun y => votesCount y =? v) (x :: l).
Proof.
  induction l as [|y l IH]; [done|].
  cbn [insert_by_votes].
  destruct (votesCount y <=? votesCount x) eqn:E; [done|].
  apply Z.leb_gt in E. cbn [List.filter] in *. rewrite IH.
  destruct (votesCount y =? v) eqn:Ey, (votesCount x =? v) eqn:Ex; try done.
  apply Z.eqb_eq in Ey, Ex. lia.
Qed.

(** X5: [sorted] with [reverse=True] rearranges the records into
    descending order of votes and keeps the records with equal votes in
    the order they had. *)
Theorem sorted_by_votes_is_a_stable_sort (l : list node) :
  sorted_by_votes l ≡ₚ l
  /\ descending (sorted_by_votes l)
  /\ forall v,
       List.filter (fun y => votesCount y =? v) (sorted_by_votes l)
       = List.filter (fun y => votesCount y =? v) l.
Proof.
  split; [apply sorted_by_votes_Permutation|].
  split; [apply sorted_by_votes_descending|].
  intros v. induction l as [|x l IH]; [done|].
  cbn [sorted_by_votes fold_right]. fold (sorted_by_votes l).
  rewrite filter_insert_by_votes. cbn [List.filter]. by rewrite IH.
Qed.

(** X6: when every page the API serves brings at least one record, the
    fetch ends within thirty requests. *)
Theorem fetch_terminates (w : World) :
  (forall c page,
     graphql_posts w (date_yesterday w) c = Return page -> nodes page <> []) ->
  is_Some (fetch_product_hunt_data w 30).
Proof.
  intros Hpages. rewrite fetch_product_hunt_data_eq.
  destruct (fetch_loop_terminates w (date_yesterday w) 30 initial_fetch_state)
    as [r ->]; [done|simpl; lia|].
  by destruct r.
Qed.

Lemma fetch_terminates_witness : is_Some (fetch_product_hunt_data two_pages 30).
Proof.
  apply fetch_terminates. intros c page. simpl.
  destruct (str_eqb c []); [by intros [= <-]|].
  destruct (str_eqb c (u "MjU")); [by intros [= <-]|done].
Defined.



Lemma add_seconds_OverflowError dt delta e :
  add_seconds dt delta = Raise e -> e = OverflowError.
Proof.
  unfold add_seconds. cbv zeta.
  generalize (to_seconds dt + delta). intros t.
  destruct ((1 <=? t / 86400 + 1) && (t / 86400 + 1 <=? MAXORDINAL)).
  - destruct (ord2ymd (t / 86400 + 1)) as [[y m] d]. discriminate.
  - intros [= <-]. reflexivity.
Qed.

Lemma astimezone_shanghai_OverflowError pf utc e :
  astimezone_shanghai pf utc = Raise e -> e = OverflowError.
Proof. exact (add_seconds_OverflowError utc (shanghai_utcoffset pf utc) e). Qed.

Lemma convert_to_beijing_time_eq pf s :
  convert_to_beijing_time pf s
  = match strptime pf s utc_format with
    | Return utc =>
        match astimezone_shanghai pf utc with
        | Return local => Return (strftime pf local beijing_format)
        | Raise e => Raise e
        end
    | Raise e => Raise e
    end.
Proof.
  unfold convert_to_beijing_time.
  destruct (strptime pf s utc_format) as [utc|e].
  - rewrite bind_Return. destruct (astimezone_shanghai pf utc) as [local|e].
    + by rewrite bind_Return.
    + by rewrite bind_Raise.
  - by rewrite bind_Raise.
Qed.

(** X9: a timestamp that converts belongs to the language of the
    expression derived from the format, and a conversion that raises
    raises [ValueError] (the timestamp is rejected) or [OverflowError]
    (the local time would lie after the year 9999). *)
Theorem conversion_outcomes (pf : Platform) (s : str) :
  (returns (convert_to_beijing_time pf s) -> in_language pf utc_regex s)
  /\ (forall e, convert_to_beijing_time pf s = Raise e ->
        e = ValueError \/ e = OverflowError).
Proof.
  rewrite convert_to_beijing_time_eq.
  destruct (strptime pf s utc_format) as [utc|e0] eqn:Hs.
  - split; [intros _; by eapply strptime_in_language|].
    intros e.
    destruct (astimezone_shanghai pf utc) as [local|e1] eqn:Ha; [discriminate|].
    intros [= <-]. right. exact (astimezone_shanghai_OverflowError _ _ _ Ha).
  - split; [intros [? ?]; discriminate|].
    intros e [= <-]. left. eapply strptime_ValueError. exact Hs.
Qed.

Lemma conversion_outcomes_witness :
  in_language plain_platform utc_regex (u "2025-03-07T16:01:00Z")
  /\ (ValueError = ValueError \/ ValueError = OverflowError)
  /\ (OverflowError = ValueError \/ OverflowError = OverflowError).
Proof.
  split; [|split].
  - apply (proj1 (conversion_outcomes plain_platform (u "2025-03-07T16:01:00Z"))).
    eexists. vm_compute. reflexivity.
  - apply (proj2 (conversion_outcomes plain_platform (u "yesterday"))).
    reflexivity.
  - apply (proj2 (conversion_outcomes plain_platform (u "9999-12-31T20:00:00Z"))).
    vm_compute. reflexivity.
Defined.



(** ** Well-formed timestamps *)

Section WellFormed.

Context (pf : Platform).

Lemma first_match_seq r1 r2 s m1 m2 :
  first_match pf r1 s = Some m1 ->
  first_match pf r2 (remaining m1) = Some m2 ->
  first_match pf (RSeq r1 r2) s
  = Some {| matched := matched m1 ++ matched m2;
            groups := groups m1 ++ groups m2;
            remaining := remaining m2 |}.
Proof.
  unfold first_match. cbn [rmatch].
  destruct (rmatch pf r1 s) as [|m1' t1]; [done|]. intros [= ->].
  cbn [flat_map].
  destruct (rmatch pf r2 (remaining m1)) as [|m2' t2]; [done|].
  by intros [= ->].
Qed.

Lemma first_match_group name r s m :
  first_match pf r s = Some m ->
  first_match pf (RGroup name r) s
  = Some {| matched := matched m;
            groups := (name, matched m) :: groups m;
            remaining := remaining m |}.
Proof.
  unfold first_match. cbn [rmatch].
  destruct (rmatch pf r s) as [|m' t]; [done|]. by intros [= ->].
Qed.

Lemma first_match_digit k rest :
  0 <= k <= 9 ->
  first_match pf RDigit (digit_char k :: rest)
  = Some {| matched := [digit_char k]; groups := []; remaining := rest |}.
Proof. intros H. check_interval k 10 by reflexivity. Qed.

Lemma first_match_month n rest :
  1 <= n <= 12 ->
  first_match pf (the_directive "m") (pad2 n ++ rest)
  = Some {| matched := pad2 n; groups := [(109%N, pad2 n)];
            remaining := rest |}.
Proof. intros H. check_interval n 12 by reflexivity. Qed.

Lemma first_match_day n rest :
  1 <= n <= 31 ->
  first_match pf (the_directive "d") (pad2 n ++ rest)
  = Some {| matched := pad2 n; groups := [(100%N, pad2 n)];
            remaining := rest |}.
Proof. intros H. check_interval n 31 by reflexivity. Qed.

Lemma first_match_hour n rest :
  0 <= n <= 23 ->
  first_match pf (the_directive "H") (pad2 n ++ rest)
  = Some {| matched := pad2 n; groups := [(72%N, pad2 n)];
            remaining := rest |}.
Proof. intros H. check_interval n 24 by reflexivity. Qed.

Lemma first_match_minute n rest :
  0 <= n <= 59 ->
  first_match pf (the_directive "M") (pad2 n ++ rest)
  = Some {| matched := pad2 n; groups := [(77%N, pad2 n)];
            remaining := rest |}.
Proof. intros H. check_interval n 60 by reflexivity. Qed.

Lemma first_match_second n rest :
  0 <= n <= 59 ->
  first_match pf (the_directive "S") (pad2 n ++ rest)
  = Some {| matched := pad2 n; groups := [(83%N, pad2 n)];
            remaining := rest |}.
Proof. intros H. check_interval n 60 by reflexivity. Qed.

Lemma first_match_digit_then r k s m :
  0 <= k <= 9 ->
  first_match pf r s = Some m ->
  groups m = [] ->
  first_match pf (RSeq RDigit r) (digit_char k :: s)
  = Some {| matched := digit_char k :: matched m; groups := [];
            remaining := remaining m |}.
Proof.
  intros Hk Hm Hg.
  rewrite (first_match_seq RDigit r _
             {| matched := [digit_char k]; groups := []; remaining := s |} m);
    [by rewrite Hg|by apply first_match_digit|done].
Qed.

Lemma first_match_year y rest :
  0 <= y <= 9999 ->
  first_match pf (the_directive "Y") (pad4 y ++ rest)
  = Some {| matched := pad4 y; groups := [(89%N, pad4 y)];
            remaining := rest |}.
Proof.
  intros Hy. unfold pad4.
  assert (0 <= y / 1000 <= 9 /\ 0 <= y / 100 mod 10 <= 9
          /\ 0 <= y / 10 mod 10 <= 9 /\ 0 <= y mod 10 <= 9)
    as (Ha & Hb & Hc & Hd) by (Z.div_mod_to_equations; lia).
  change (the_directive "Y")
    with (RGroup 89%N (RSeq RDigit (RSeq RDigit (RSeq RDigit RDigit)))).
  cbn [app].
  pose proof (first_match_digit (y mod 10) rest Hd) as H4.
  pose proof (first_match_digit_then _ _ _ _ Hc H4 eq_refl) as H3.
  pose proof (first_match_digit_then _ _ _ _ Hb H3 eq_refl) as H2.
  pose proof (first_match_digit_then _ _ _ _ Ha H2 eq_refl) as H1.
  by rewrite (first_match_group _ _ _ _ H1).
Qed.

Lemma first_match_literal (c : char) rest :
  first_match pf (RLit c) (c :: rest)
  = Some {| matched := [c]; groups := []; remaining := rest |}.
Proof. unfold first_match. cbn. by rewrite N.eqb_refl. Qed.

Lemma is_space_digit_char k : 0 <= k <= 9 -> is_space (digit_char k) = false.
Proof. intros H. check_interval k 10 by reflexivity. Qed.

Lemma digit_value_digit_char k :
  0 <= k <= 9 -> digit_value pf (digit_char k) = Some k.
Proof. intros H. check_interval k 10 by reflexivity. Qed.

Lemma py_int_pad2 n : 0 <= n <= 99 -> py_int pf (pad2 n) = Return n.
Proof. intros H. check_interval n 100 by reflexivity. Qed.

Lemma py_int_pad4 y : 0 <= y <= 9999 -> py_int pf (pad4 y) = Return y.
Proof.
  intros Hy. unfold py_int.
  assert (0 <= y / 1000 <= 9 /\ 0 <= y / 100 mod 10 <= 9
          /\ 0 <= y / 10 mod 10 <= 9 /\ 0 <= y mod 10 <= 9)
    as (Ha & Hb & Hc & Hd) by (Z.div_mod_to_equations; lia).
  rewrite trimmed_strip.
  2:{ split; cbn; by apply is_space_digit_char. }
  unfold pad4. cbn [fold_left mbind result_bind].
  rewrite !digit_value_digit_char by done. cbn [mbind result_bind].
  f_equal. Z.div_mod_to_equations. lia.
Qed.

Lemma first_match_then r1 r2 f g rest m2 :
  first_match pf r1 (f ++ rest)
  = Some {| matched := f; groups := g; remaining := rest |} ->
  first_match pf r2 rest = Some m2 ->
  first_match pf (RSeq r1 r2) (f ++ rest)
  = Some {| matched := f ++ matched m2; groups := g ++ groups m2;
            remaining := remaining m2 |}.
Proof. intros H1 H2. by rewrite (first_match_seq _ _ _ _ m2 H1 H2). Qed.

Lemma days_in_month_le y m : days_in_month y m <= 31.
Proof.
  unfold days_in_month, DAYS_IN_MONTH.
  destruct (_ && _); [lia|].
  repeat match goal with
         | |- context [match ?x with _ => _ end] => destruct x
         end; lia.
Qed.

(** The fields of a valid date and time lie in the intervals the
    expression of each directive covers. *)
Lemma check_fields_ranges y m d h mi s :
  check_date_fields y m d = true ->
  check_time_fields h mi s = true ->
  1 <= y <= 9999 /\ 1 <= m <= 12 /\ 1 <= d <= 31
  /\ 0 <= h <= 23 /\ 0 <= mi <= 59 /\ 0 <= s <= 59.
Proof.
  unfold check_date_fields, check_time_fields, MINYEAR, MAXYEAR.
  rewrite !andb_true_iff, !Z.leb_le.
  pose proof (days_in_month_le y m). lia.
Qed.

(** The expression of [%S] also takes 60 and 61. *)
Lemma first_match_leap_second n rest :
  60 <= n <= 61 ->
  first_match pf (the_directive "S") (pad2 n ++ rest)
  = Some {| matched := pad2 n; groups := [(83%N, pad2 n)];
            remaining := rest |}.
Proof. intros H. check_interval n 2 by reflexivity. Qed.

(** How the expression of the format reads a zero-padded timestamp whose
    fields lie in the intervals of the directives. *)
Lemma first_match_padded_timestamp y m d h mi s :
  0 <= y <= 9999 -> 1 <= m <= 12 -> 1 <= d <= 31 ->
  0 <= h <= 23 -> 0 <= mi <= 59 -> 0 <= s <= 61 ->
  first_match pf utc_regex (iso_timestamp y m d h mi s)
  = Some {| matched := iso_timestamp y m d h mi s;
            groups := [(89%N, pad4 y); (109%N, pad2 m); (100%N, pad2 d);
                       (72%N, pad2 h); (77%N, pad2 mi); (83%N, pad2 s)];
            remaining := [] |}.
Proof.
  intros Hy Hm Hday Hh Hmi Hs.
  assert (forall c rest, first_match pf (RLit c) ([c] ++ rest)
            = Some {| matched := [c]; groups := []; remaining := rest |})
    as Hlit by (intros; apply first_match_literal).
  assert (first_match pf (RSeq (RLit 90%N) REmpty) [90%N]
          = Some {| matched := [90%N]; groups := []; remaining := [] |})
    as H1 by reflexivity.
  assert (first_match pf (the_directive "S") (pad2 s ++ [90%N])
          = Some {| matched := pad2 s; groups := [(83%N, pad2 s)];
                    remaining := [90%N] |}) as Hsec.
  { destruct (Z.le_gt_cases s 59).
    - apply first_match_second. lia.
    - apply first_match_leap_second. lia. }
  pose proof (first_match_then (the_directive "S") _ (pad2 s)
                [(83%N, pad2 s)] _ _ Hsec H1) as H2.
  cbn [matched groups remaining app] in H2.
  pose proof (first_match_then (RLit 58%N) _ [58%N] [] _ _
                (Hlit 58%N _) H2) as H3.
  cbn [matched groups remaining] in H3.
  pose proof (first_match_then (the_directive "M") _ (pad2 mi)
                [(77%N, pad2 mi)] _ _ (first_match_minute mi _ Hmi) H3) as H4.
  cbn [matched groups remaining] in H4.
  pose proof (first_match_then (RLit 58%N) _ [58%N] [] _ _
                (Hlit 58%N _) H4) as H5.
  cbn [matched groups remaining] in H5.
  pose proof (first_match_then (the_directive "H") _ (pad2 h)
                [(72%N, pad2 h)] _ _ (first_match_hour h _ Hh) H5) as H6.
  cbn [matched groups remaining] in H6.
  pose proof (first_match_then (RLit 84%N) _ [84%N] [] _ _
                (Hlit 84%N _) H6) as H7.
  cbn [matched groups remaining] in H7.
  pose proof (first_match_then (the_directive "d") _ (pad2 d)
                [(100%N, pad2 d)] _ _ (first_match_day d _ Hday) H7) as H8.
  cbn [matched groups remaining] in H8.
  pose proof (first_match_then (RLit 45%N) _ [45%N] [] _ _
                (Hlit 45%N _) H8) as H9.
  cbn [matched groups remaining] in H9.
  pose proof (first_match_then (the_directive "m") _ (pad2 m)
                [(109%N, pad2 m)] _ _ (first_match_month m _ Hm) H9) as H10.
  cbn [matched groups remaining] in H10.
  pose proof (first_match_then (RLit 45%N) _ [45%N] [] _ _
                (Hlit 45%N _) H10) as H11.
  cbn [matched groups remaining] in H11.
  pose proof (first_match_then (the_directive "Y") _ (pad4 y)
                [(89%N, pad4 y)] _ _ (first_match_year y _ Hy) H11) as H12.
  cbn [matched groups remaining] in H12.
  exact H12.
Qed.

(** The same for the timestamp of a valid date and time. *)
Lemma first_match_iso_timestamp y m d h mi s :
  check_date_fields y m d = true ->
  check_time_fields h mi s = true ->
  first_match pf utc_regex (iso_timestamp y m d h mi s)
  = Some {| matched := iso_timestamp y m d h mi s;
            groups := [(89%N, pad4 y); (109%N, pad2 m); (100%N, pad2 d);
                       (72%N, pad2 h); (77%N, pad2 mi); (83%N, pad2 s)];
            remaining := [] |}.
Proof.
  intros Hd Ht.
  destruct (check_fields_ranges _ _ _ _ _ _ Hd Ht)
    as (Hy & Hm & Hday & Hh & Hmi & Hs).
  apply first_match_padded_timestamp; lia.
Qed.

(** [strptime] reads the six numbers of such a timestamp and hands them
    to the constructor of [datetime], which checks them. *)
Lemma strptime_padded_timestamp y m d h mi s :
  0 <= y <= 9999 -> 1 <= m <= 12 -> 1 <= d <= 31 ->
  0 <= h <= 23 -> 0 <= mi <= 59 -> 0 <= s <= 61 ->
  strptime pf (iso_timestamp y m d h mi s) utc_format
  = make_datetime y m d h mi s.
Proof.
  intros Hy Hm Hday Hh Hmi Hs.
  pose proof (first_match_padded_timestamp _ _ _ _ _ _ Hy Hm Hday Hh Hmi Hs)
    as Hfirst.
  unfold strptime. rewrite format_regex_utc_format, bind_Return.
  unfold first_match in Hfirst.
  destruct (rmatch pf utc_regex (iso_timestamp y m d h mi s))
    as [|found tail]; [done|].
  injection Hfirst as ->. cbn [remaining str_truthy].
  change (group_int pf _ "Y" 1900) with (py_int pf (pad4 y)).
  change (group_int pf _ "m" 1) with (py_int pf (pad2 m)).
  change (group_int pf _ "d" 1) with (py_int pf (pad2 d)).
  change (group_int pf _ "H" 0) with (py_int pf (pad2 h)).
  change (group_int pf _ "M" 0) with (py_int pf (pad2 mi)).
  change (group_int pf _ "S" 0) with (py_int pf (pad2 s)).
  rewrite py_int_pad4 by lia. rewrite !py_int_pad2 by lia.
  by rewrite !bind_Return.
Qed.

(** [strptime] reads a zero-padded timestamp of a valid date and time as
    that date and time. *)
Lemma strptime_iso_timestamp y m d h mi s :
  check_date_fields y m d = true ->
  check_time_fields h mi s = true ->
  strptime pf (iso_timestamp y m d h mi s) utc_format
  = Return {| year := y; month := m; day := d;
              hour := h; minute := mi; second := s |}.
Proof.
  intros Hd Ht.
  destruct (check_fields_ranges _ _ _ _ _ _ Hd Ht)
    as (Hy & Hm & Hday & Hh & Hmi & Hs).
  rewrite strptime_padded_timestamp by lia.
  unfold make_datetime. by rewrite Hd, Ht.
Qed.

Lemma days_before_month_bounds y m :
  1 <= m <= 12 -> 0 <= days_before_month y m <= 335.
Proof.
  intros Hm. unfold days_before_month.
  assert (0 <= DAYS_BEFORE_MONTH m <= 334) as H.
  { clear - Hm.
    check_interval m 12 by (unfold DAYS_BEFORE_MONTH; simpl; lia). }
  destruct (_ && _); lia.
Qed.

Lemma ymd2ord_bounds y m d :
  check_date_fields y m d = true ->
  days_before_year y + 1 <= ymd2ord y m d <= days_before_year y + 366.
Proof.
  intros Hd. unfold ymd2ord.
  unfold check_date_fields in Hd.
  rewrite !andb_true_iff, !Z.leb_le in Hd.
  pose proof (days_in_month_le y m).
  pose proof (days_before_month_bounds y m). lia.
Qed.

Lemma days_before_year_bounds y :
  1992 <= y <= 9998 -> 727197 <= days_before_year y <= 3651329.
Proof.
  intros Hy. unfold days_before_year. cbv zeta.
  Z.div_mod_to_equations. lia.
Qed.

(** From 1992 on the zone is eight hours ahead of UTC, and up to the year
    9998 the local time is a date the calendar has: the conversion of a
    well-formed timestamp returns. *)
Lemma convert_iso_timestamp y m d h mi s :
  check_date_fields y m d = true ->
  check_time_fields h mi s = true ->
  1992 <= y <= 9998 ->
  exists beijing_time,
    add_seconds {| year := y; month := m; day := d;
                   hour := h; minute := mi; second := s |} (8 * 3600)
    = Return beijing_time
    /\ convert_to_beijing_time pf (iso_timestamp y m d h mi s)
       = Return (strftime pf beijing_time beijing_format).
Proof.
  intros Hd Ht Hy.
  set (utc := {| year := y; month := m; day := d;
                 hour := h; minute := mi; second := s |}).
  destruct (check_fields_ranges _ _ _ _ _ _ Hd Ht)
    as (_ & Hm & Hday & Hh & Hmi & Hs).
  pose proof (ymd2ord_bounds _ _ _ Hd) as Ho.
  pose proof (days_before_year_bounds _ Hy) as Hb.
  assert (727197 * 86400 <= to_seconds utc <= 3651695 * 86400 - 1) as Hsec.
  { unfold to_seconds, utc. cbn [year month day hour minute second]. lia. }
  assert (shanghai_utcoffset pf utc = 8 * 3600) as Hoff.
  { unfold shanghai_utcoffset.
    replace (T1992 <=? to_seconds utc) with true; [done|].
    symmetry. apply Z.leb_le. change T1992 with (727197 * 86400). lia. }
  assert (exists beijing_time,
            add_seconds utc (8 * 3600) = Return beijing_time) as [local Hl].
  { unfold add_seconds. cbv zeta.
    generalize Hsec. generalize (to_seconds utc). intros t Hsec'.
    replace ((1 <=? (t + 8 * 3600) / 86400 + 1)
             && ((t + 8 * 3600) / 86400 + 1 <=? MAXORDINAL)) with true.
    - destruct (ord2ymd _) as [[y' m'] d']. by eexists.
    - symmetry. apply andb_true_iff. rewrite !Z.leb_le. unfold MAXORDINAL.
      Z.div_mod_to_equations. lia. }
  exists local. split; [done|].
  rewrite convert_to_beijing_time_eq, strptime_iso_timestamp by done.
  fold utc. unfold astimezone_shanghai. by rewrite Hoff, Hl.
Qed.

End WellFormed.



(** * The calendar and the local time *)

(** ** Ordinals and dates *)

(** A year in the four-hundred-year cycle: [y - 1] is
    [400 * a + 100 * b + 4 * c + e]. *)
Lemma year_parts y :
  1 <= y ->
  exists a b c e,
    y = 400 * a + 100 * b + 4 * c + e + 1
    /\ 0 <= a /\ 0 <= b <= 3 /\ 0 <= c <= 24 /\ 0 <= e <= 3
    /\ days_before_year y = 146097 * a + 36524 * b + 1461 * c + 365 * e
    /\ is_leap y = (e =? 3) && (negb (c =? 24) || (b =? 3)).
Proof.
  intros Hy.
  exists ((y - 1) / 400), ((y - 1) mod 400 / 100),
         ((y - 1) mod 100 / 4), ((y - 1) mod 4).
  repeat split; try (Z.div_mod_to_equations; lia).
  - unfold days_before_year. cbv zeta. Z.div_mod_to_equations. lia.
  - unfold is_leap.
    destruct (y mod 4 =? 0) eqn:E4, (y mod 100 =? 0) eqn:E100,
             (y mod 400 =? 0) eqn:E400,
             ((y - 1) mod 4 =? 3) eqn:F4, ((y - 1) mod 100 / 4 =? 24) eqn:F100,
             ((y - 1) mod 400 / 100 =? 3) eqn:F400;
      try reflexivity; exfalso;
      rewrite ?Z.eqb_eq, ?Z.eqb_neq in *;
      Z.div_mod_to_equations; lia.
Qed.

(** The month and the day of the [k]-th day of a year, as [ord2ymd]
    finds them. *)
Lemma month_of_day_of_year (leapyear : bool) (m d : Z) :
  1 <= m <= 12 ->
  1 <= d <= DAYS_IN_MONTH m + (if (m =? 2) && leapyear then 1 else 0) ->
  let n := DAYS_BEFORE_MONTH m + (if (2 <? m) && leapyear then 1 else 0)
           + d - 1 in
  (let m := Z.shiftr (n + 50) 5 in
   let preceding :=
     DAYS_BEFORE_MONTH m + (if (2 <? m) && leapyear then 1 else 0) in
   if n <? preceding then
     let m := m - 1 in
     let preceding :=
       preceding
       - (DAYS_IN_MONTH m + (if (m =? 2) && leapyear then 1 else 0)) in
     (m, n - preceding + 1)
   else (m, n - preceding + 1))
  = (m, d).
Proof.
  intros Hm Hd. cbv zeta. rewrite Z.shiftr_div_pow2 by lia.
  change (2 ^ 5) with 32.
  destruct leapyear; revert Hd;
    check_interval m 12 by
      (eval_tables; intros Hd;
       lazymatch goal with
       | |- context [?x / 32] =>
           lazymatch goal with
           | |- _ = (?M, _) =>
               let Hq := fresh "Hq" in
               assert (x / 32 = M \/ x / 32 = M + 1) as [Hq|Hq]
                 by (Z.div_mod_to_equations; lia);
               rewrite Hq; eval_tables;
               lazymatch goal with
               | |- context [?a <? ?b] =>
                   destruct (Z.ltb_spec a b);
                   first [ f_equal; lia
                         | exfalso; lia
                         | exfalso; Z.div_mod_to_equations; lia ]
               end
           end
       end).
Qed.

Lemma ord2ymd_parts a b c e m d :
  0 <= a -> 0 <= b <= 3 -> 0 <= c <= 24 -> 0 <= e <= 3 ->
  let leapyear := (e =? 3) && (negb (c =? 24) || (b =? 3)) in
  1 <= m <= 12 ->
  1 <= d <= DAYS_IN_MONTH m + (if (m =? 2) && leapyear then 1 else 0) ->
  let n := DAYS_BEFORE_MONTH m + (if (2 <? m) && leapyear then 1 else 0)
           + d - 1 in
  n <= 364 ->
  ord2ymd (146097 * a + 36524 * b + 1461 * c + 365 * e + n + 1)
  = (400 * a + 100 * b + 4 * c + e + 1, m, d).
Proof.
  intros Ha Hb Hc He leapyear Hm Hd n Hn.
  pose proof (month_of_day_of_year leapyear m d Hm Hd) as Hmd.
  cbv zeta in Hmd. fold n in Hmd.
  assert (0 <= n) as Hn0.
  { assert (0 <= DAYS_BEFORE_MONTH m) as H0
      by (clear - Hm; check_interval m 12 by (eval_tables; lia)).
    destruct Hd as [Hd _]. unfold n. destruct ((2 <? m) && leapyear); lia. }
  clearbody n. clear Hd.
  unfold ord2ymd, DI400Y, DI100Y, DI4Y. cbv zeta.
  replace (146097 * a + 36524 * b + 1461 * c + 365 * e + n + 1 - 1)
    with (146097 * a + 36524 * b + 1461 * c + 365 * e + n) by lia.
  replace ((146097 * a + 36524 * b + 1461 * c + 365 * e + n) / 146097)
    with a by (Z.div_mod_to_equations; lia).
  replace ((146097 * a + 36524 * b + 1461 * c + 365 * e + n) mod 146097)
    with (36524 * b + 1461 * c + 365 * e + n) by (Z.div_mod_to_equations; lia).
  replace ((36524 * b + 1461 * c + 365 * e + n) / 36524)
    with b by (Z.div_mod_to_equations; lia).
  replace ((36524 * b + 1461 * c + 365 * e + n) mod 36524)
    with (1461 * c + 365 * e + n) by (Z.div_mod_to_equations; lia).
  replace ((1461 * c + 365 * e + n) / 1461)
    with c by (Z.div_mod_to_equations; lia).
  replace ((1461 * c + 365 * e + n) mod 1461)
    with (365 * e + n) by (Z.div_mod_to_equations; lia).
  replace ((365 * e + n) / 365) with e by (Z.div_mod_to_equations; lia).
  replace ((365 * e + n) mod 365) with n by (Z.div_mod_to_equations; lia).
  replace (e =? 4) with false by (symmetry; apply Z.eqb_neq; lia).
  replace (b =? 4) with false by (symmetry; apply Z.eqb_neq; lia).
  cbn [orb]. fold leapyear.
  replace (a * 400 + 1 + b * 100 + c * 4 + e)
    with (400 * a + 100 * b + 4 * c + e + 1) by lia.
  destruct (n <? _); injection Hmd as -> ->; reflexivity.
Qed.

(** The last day of a leap year. *)
Lemma ord2ymd_last_day_of_leap_year a b c :
  0 <= a -> 0 <= b <= 3 -> 0 <= c <= 24 ->
  negb (c =? 24) || (b =? 3) = true ->
  ord2ymd (146097 * a + 36524 * b + 1461 * c + 365 * 3 + 365 + 1)
  = (400 * a + 100 * b + 4 * c + 3 + 1, 12, 31).
Proof.
  intros Ha Hb Hc Hleap.
  unfold ord2ymd, DI400Y, DI100Y, DI4Y. cbv zeta.
  replace (146097 * a + 36524 * b + 1461 * c + 365 * 3 + 365 + 1 - 1)
    with (146097 * a + 36524 * b + 1461 * c + 1460) by lia.
  replace ((146097 * a + 36524 * b + 1461 * c + 1460) / 146097)
    with a by (Z.div_mod_to_equations; lia).
  replace ((146097 * a + 36524 * b + 1461 * c + 1460) mod 146097)
    with (36524 * b + 1461 * c + 1460) by (Z.div_mod_to_equations; lia).
  destruct (c =? 24) eqn:Ec.
  - apply Z.eqb_eq in Ec. cbn in Hleap. apply Z.eqb_eq in Hleap. subst b c.
    change (36524 * 3 + 1461 * 24 + 1460) with 146096.
    change (146096 / 36524) with 4. change (146096 mod 36524) with 0.
    change (0 / 1461) with 0. change (0 mod 1461) with 0.
    change (0 / 365) with 0. change ((0 =? 4) || (4 =? 4)) with true.
    cbv iota. f_equal. f_equal. lia.
  - apply Z.eqb_neq in Ec.
    replace ((36524 * b + 1461 * c + 1460) / 36524)
      with b by (Z.div_mod_to_equations; lia).
    replace ((36524 * b + 1461 * c + 1460) mod 36524)
      with (1461 * c + 1460) by (Z.div_mod_to_equations; lia).
    replace ((1461 * c + 1460) / 1461) with c by (Z.div_mod_to_equations; lia).
    replace ((1461 * c + 1460) mod 1461) with 1460
      by (Z.div_mod_to_equations; lia).
    change (1460 / 365) with 4. change (4 =? 4) with true.
    cbn [orb]. f_equal. f_equal. lia.
Qed.

(** [ord2ymd] inverts [ymd2ord] on every date of the calendar. *)
Lemma ord2ymd_ymd2ord y m d :
  check_date_fields y m d = true -> ord2ymd (ymd2ord y m d) = (y, m, d).
Proof.
  unfold check_date_fields, MINYEAR.
  rewrite !andb_true_iff, !Z.leb_le. intros [[[[[Hy _] Hm1] Hm2] Hd1] Hd2].
  destruct (year_parts y Hy) as (a & b & c & e & Ey & Ha & Hb & Hc & He & Edby & Eleap).
  unfold ymd2ord, days_before_month. unfold days_in_month in Hd2.
  rewrite Edby. rewrite Eleap in *.
  set (leapyear := (e =? 3) && (negb (c =? 24) || (b =? 3))) in *.
  assert (DAYS_BEFORE_MONTH m + DAYS_IN_MONTH m <= 365
          /\ (m <= 2 -> DAYS_BEFORE_MONTH m + DAYS_IN_MONTH m <= 59)
          /\ (DAYS_BEFORE_MONTH m + DAYS_IN_MONTH m = 365 -> m = 12)
          /\ 0 <= DAYS_BEFORE_MONTH m) as (Hsum & Hfeb & Hdec & Hpos).
  { assert (1 <= m <= 12) as Hm by lia. clear - Hm.
    check_interval m 12 by (eval_tables; lia). }
  assert (DAYS_IN_MONTH m + (if (m =? 2) && leapyear then 1 else 0)
          = if (m =? 2) && leapyear then 29 else DAYS_IN_MONTH m) as Edim.
  { destruct (m =? 2) eqn:E2; cbn [andb]; [|lia].
    apply Z.eqb_eq in E2. subst m. by destruct leapyear. }
  set (n := DAYS_BEFORE_MONTH m + (if (2 <? m) && leapyear then 1 else 0)
            + d - 1).
  assert (n <= 364 \/ (n = 365 /\ leapyear = true /\ m = 12 /\ d = 31))
    as [Hn|(Hn & Hl & -> & ->)].
  { unfold n. destruct (m =? 2) eqn:E2, (2 <? m) eqn:E3, leapyear;
      cbn [andb] in *;
      rewrite ?Z.eqb_eq, ?Z.eqb_neq, ?Z.ltb_lt, ?Z.ltb_ge in *; try lia.
    destruct (Z.eq_dec (DAYS_BEFORE_MONTH m + DAYS_IN_MONTH m) 365) as [E|E].
    - specialize (Hdec E). subst m. cbn in *. lia.
    - lia. }
  - replace (146097 * a + 36524 * b + 1461 * c + 365 * e
             + (DAYS_BEFORE_MONTH m + (if (2 <? m) && leapyear then 1 else 0))
             + d)
      with (146097 * a + 36524 * b + 1461 * c + 365 * e + n + 1)
      by (unfold n; lia).
    rewrite Ey. apply ord2ymd_parts; try done; try lia.
    fold leapyear. rewrite Edim. lia.
  - unfold leapyear in Hl. apply andb_true_iff in Hl as [He3 Hl].
    apply Z.eqb_eq in He3. subst e.
    replace (146097 * a + 36524 * b + 1461 * c + 365 * 3
             + (DAYS_BEFORE_MONTH 12 + (if (2 <? 12) && leapyear then 1 else 0))
             + 31)
      with (146097 * a + 36524 * b + 1461 * c + 365 * 3 + 365 + 1)
      by (unfold n in Hn; lia).
    rewrite Ey. by apply ord2ymd_last_day_of_leap_year.
Qed.

Lemma days_before_next_year y :
  1 <= y ->
  days_before_year (y + 1)
  = days_before_year y + 365 + (if is_leap y then 1 else 0).
Proof.
  intros Hy. unfold days_before_year, is_leap. cbv zeta.
  replace (y + 1 - 1) with y by lia.
  destruct (y mod 4 =? 0) eqn:E4, (y mod 100 =? 0) eqn:E100,
           (y mod 400 =? 0) eqn:E400; cbn [andb orb negb];
    rewrite ?Z.eqb_eq, ?Z.eqb_neq in *; Z.div_mod_to_equations; lia.
Qed.

Lemma days_before_next_month y m :
  1 <= m <= 11 ->
  days_before_month y (m + 1) = days_before_month y m + days_in_month y m.
Proof.
  intros Hm. unfold days_before_month, days_in_month.
  destruct (is_leap y);
    check_interval m 11 by
      (lazymatch goal with
       | |- context [1 + Z.of_nat ?k] =>
           let v := eval cbv in (1 + Z.of_nat k) in
           change (1 + Z.of_nat k) with v
       end; reflexivity).
Qed.

Lemma check_date_fields_spec y m d :
  check_date_fields y m d = true
  <-> 1 <= y <= 9999 /\ 1 <= m <= 12 /\ 1 <= d <= days_in_month y m.
Proof.
  unfold check_date_fields, MINYEAR, MAXYEAR.
  rewrite !andb_true_iff, !Z.leb_le. lia.
Qed.

Lemma days_in_month_ge y m : 28 <= days_in_month y m.
Proof.
  unfold days_in_month, DAYS_IN_MONTH.
  destruct (_ && _); [lia|].
  repeat match goal with
         | |- context [match ?x with _ => _ end] => destruct x
         end; lia.
Qed.

(** The day after a date of the calendar is the next ordinal. *)
Lemma ymd2ord_next_day y m d y' m' d' :
  check_date_fields y m d = true ->
  next_day y m d = (y', m', d') ->
  ymd2ord y' m' d' = ymd2ord y m d + 1
  /\ (y < 9999 -> check_date_fields y' m' d' = true).
Proof.
  intros (Hy & Hm & Hd)%check_date_fields_spec. unfold next_day.
  destruct (Z.ltb_spec d (days_in_month y m)).
  - intros [= <- <- <-]. split; [unfold ymd2ord; lia|].
    intros _. apply check_date_fields_spec. lia.
  - destruct (Z.ltb_spec m 12).
    + intros [= <- <- <-]. split.
      * unfold ymd2ord. rewrite days_before_next_month by lia. lia.
      * intros _. apply check_date_fields_spec.
        pose proof (days_in_month_ge y (m + 1)). lia.
    + intros [= <- <- <-]. assert (m = 12) as -> by lia.
      split.
      * unfold ymd2ord. rewrite days_before_next_year by lia.
        unfold days_before_month, days_in_month in *.
        change (12 =? 2) with false in *. change (2 <? 12) with true.
        change (2 <? 1) with false. cbn [andb] in *.
        change (DAYS_IN_MONTH 12) with 31 in *.
        change (DAYS_BEFORE_MONTH 12) with 334.
        change (DAYS_BEFORE_MONTH 1) with 0. lia.
      * intros Hlt. apply check_date_fields_spec.
        pose proof (days_in_month_ge (y + 1) 1). lia.
Qed.

(** Eight hours after a time of the calendar's day. *)
Lemma add_seconds_8_hours y m d h mi s :
  check_date_fields y m d = true ->
  check_time_fields h mi s = true ->
  y < 9999 ->
  add_seconds {| year := y; month := m; day := d;
                 hour := h; minute := mi; second := s |} (8 * 3600)
  = Return
      (if h <? 16
       then {| year := y; month := m; day := d;
               hour := h + 8; minute := mi; second := s |}
       else let '(y', m', d') := next_day y m d in
            {| year := y'; month := m'; day := d';
               hour := h - 16; minute := mi; second := s |}).
Proof.
  intros Hd Ht Hy.
  destruct (check_fields_ranges _ _ _ _ _ _ Hd Ht)
    as (Hy' & Hm & Hday & Hh & Hmi & Hs).
  pose proof (ymd2ord_bounds _ _ _ Hd) as Ho.
  assert (0 <= days_before_year y <= 3651329) as Hb.
  { unfold days_before_year. cbv zeta. Z.div_mod_to_equations. lia. }
  unfold add_seconds, to_seconds. cbn [year month day hour minute second].
  cbv zeta.
  set (o := ymd2ord y m d) in *.
  destruct (Z.ltb_spec h 16) as [Hlt|Hge].
  - replace (((o - 1) * 86400 + h * 3600 + mi * 60 + s + 8 * 3600) / 86400 + 1)
      with o by (Z.div_mod_to_equations; lia).
    replace (((o - 1) * 86400 + h * 3600 + mi * 60 + s + 8 * 3600) mod 86400)
      with ((h + 8) * 3600 + mi * 60 + s) by (Z.div_mod_to_equations; lia).
    replace ((1 <=? o) && (o <=? MAXORDINAL)) with true
      by (symmetry; apply andb_true_iff; rewrite !Z.leb_le; unfold MAXORDINAL; lia).
    unfold o. rewrite ord2ymd_ymd2ord by done.
    do 2 f_equal; Z.div_mod_to_equations; lia.
  - destruct (next_day y m d) as [[y' m'] d'] eqn:En.
    destruct (ymd2ord_next_day _ _ _ _ _ _ Hd En) as [Eo Hc].
    specialize (Hc Hy).
    replace (((o - 1) * 86400 + h * 3600 + mi * 60 + s + 8 * 3600) / 86400 + 1)
      with (o + 1) by (Z.div_mod_to_equations; lia).
    replace (((o - 1) * 86400 + h * 3600 + mi * 60 + s + 8 * 3600) mod 86400)
      with ((h - 16) * 3600 + mi * 60 + s) by (Z.div_mod_to_equations; lia).
    replace ((1 <=? o + 1) && (o + 1 <=? MAXORDINAL)) with true
      by (symmetry; apply andb_true_iff; rewrite !Z.leb_le; unfold MAXORDINAL; lia).
    unfold o. rewrite <- Eo, ord2ymd_ymd2ord by done.
    do 2 f_equal; Z.div_mod_to_equations; lia.
Qed.

(** ** The display string, in closed form *)

Lemma strftime_beijing_format pf dt :
  1000 <= year dt ->
  strftime pf dt beijing_format
  = beijing_display (year dt) (month dt) (day dt) (hour dt) (minute dt).
Proof.
  intros Hy. unfold beijing_display.
  let f := eval cbv in beijing_format in change beijing_format with f.
  cbn [strftime N.eqb Pos.eqb percent strftime_directive].
  unfold format_year.
  replace (year dt <? 1000) with false by (symmetry; apply Z.ltb_ge; lia).
  destruct (hour dt <? 12); reflexivity.
Qed.

Lemma next_day_year y m d y' m' d' :
  next_day y m d = (y', m', d') -> y <= y'.
Proof.
  unfold next_day. destruct (_ <? _); [intros [= <- _ _]; lia|].
  destruct (_ <? _); intros [= <- _ _]; lia.
Qed.

(** The display string of a well-formed timestamp, in closed form. *)
Lemma convert_iso_timestamp_display pf y m d h mi s :
  check_date_fields y m d = true ->
  check_time_fields h mi s = true ->
  1992 <= y <= 9998 ->
  convert_to_beijing_time pf (iso_timestamp y m d h mi s)
  = Return (let '(y', m', d', h') := eight_hours_later y m d h in
            beijing_display y' m' d' h' mi).
Proof.
  intros Hd Ht Hy.
  destruct (convert_iso_timestamp pf _ _ _ _ _ _ Hd Ht Hy)
    as (local & Hl & ->).
  rewrite add_seconds_8_hours in Hl by (done || lia).
  injection Hl as <-. f_equal. unfold eight_hours_later.
  destruct (h <? 16).
  - by rewrite strftime_beijing_format by (cbn; lia).
  - destruct (next_day y m d) as [[y' m'] d'] eqn:En.
    apply next_day_year in En.
    by rewrite strftime_beijing_format by (cbn; lia).
Qed.

Lemma digit_char_inj a b :
  0 <= a -> 0 <= b -> digit_char a = digit_char b -> a = b.
Proof. unfold digit_char. intros Ha Hb H. apply Z2N.inj in H; lia. Qed.

Lemma pad2_inj a b :
  0 <= a <= 99 -> 0 <= b <= 99 -> pad2 a = pad2 b -> a = b.
Proof.
  intros Ha Hb. unfold pad2. intros [= H1 H2].
  apply digit_char_inj in H1, H2; Z.div_mod_to_equations; lia.
Qed.

Lemma pad4_inj a b :
  0 <= a <= 9999 -> 0 <= b <= 9999 -> pad4 a = pad4 b -> a = b.
Proof.
  intros Ha Hb. unfold pad4. intros [= H1 H2 H3 H4].
  apply digit_char_inj in H1, H2, H3, H4; Z.div_mod_to_equations; lia.
Qed.

Lemma half_of_day_inj h h' :
  0 <= h <= 23 -> 0 <= h' <= 23 ->
  (if h <? 12 then u "AM" else u "PM") = (if h' <? 12 then u "AM" else u "PM") ->
  (if h mod 12 =? 0 then 12 else h mod 12)
  = (if h' mod 12 =? 0 then 12 else h' mod 12) ->
  h = h'.
Proof.
  intros Hh Hh'.
  destruct (Z.ltb_spec h 12), (Z.ltb_spec h' 12); try discriminate; intros _;
    destruct (Z.eqb_spec (h mod 12) 0), (Z.eqb_spec (h' mod 12) 0);
    Z.div_mod_to_equations; lia.
Qed.

(** The display string tells the date, the hour and the minute. *)
Lemma beijing_display_inj y m d h mi y' m' d' h' mi' :
  0 <= y <= 9999 -> 0 <= m <= 99 -> 0 <= d <= 99 ->
  0 <= h <= 23 -> 0 <= mi <= 99 ->
  0 <= y' <= 9999 -> 0 <= m' <= 99 -> 0 <= d' <= 99 ->
  0 <= h' <= 23 -> 0 <= mi' <= 99 ->
  beijing_display y m d h mi = beijing_display y' m' d' h' mi' ->
  y = y' /\ m = m' /\ d = d' /\ h = h' /\ mi = mi'.
Proof.
  intros Hy Hm Hd Hh Hmi Hy' Hm' Hd' Hh' Hmi'.
  unfold beijing_display. intros H.
  apply app_inj_1 in H as [Ey H]; [|done].
  apply app_inj_1 in H as [_ H]; [|done].
  apply app_inj_1 in H as [Em H]; [|done].
  apply app_inj_1 in H as [_ H]; [|done].
  apply app_inj_1 in H as [Ed H]; [|done].
  apply app_inj_1 in H as [_ H]; [|done].
  apply app_inj_1 in H as [_ H]; [|done].
  apply app_inj_1 in H as [Ehalf H];
    [|by destruct (h <? 12), (h' <? 12)].
  apply app_inj_1 in H as [Eh H]; [|done].
  apply app_inj_1 in H as [_ H]; [|done].
  apply app_inj_1 in H as [Emi _]; [|done].
  apply pad4_inj in Ey; [|done..]. apply pad2_inj in Em, Ed, Emi; [|done..].
  apply pad2_inj in Eh.
  - repeat split; try done. by apply half_of_day_inj.
  - destruct (Z.eqb_spec (h mod 12) 0); Z.div_mod_to_equations; lia.
  - destruct (Z.eqb_spec (h' mod 12) 0); Z.div_mod_to_equations; lia.
Qed.

(** Eight hours later is a different local hour for a different UTC
    hour. *)
Lemma eight_hours_later_inj y m d h y2 m2 d2 h2 :
  check_date_fields y m d = true -> check_date_fields y2 m2 d2 = true ->
  0 <= h <= 23 -> 0 <= h2 <= 23 ->
  eight_hours_later y m d h = eight_hours_later y2 m2 d2 h2 ->
  y = y2 /\ m = m2 /\ d = d2 /\ h = h2.
Proof.
  intros Hd Hd2 Hh Hh2. unfold eight_hours_later.
  destruct (next_day y m d) as [[y' m'] d'] eqn:En.
  destruct (next_day y2 m2 d2) as [[y2' m2'] d2'] eqn:En2.
  destruct (Z.ltb_spec h 16), (Z.ltb_spec h2 16); intros [= ? ? ? ?];
    [lia..|]; subst.
  destruct (ymd2ord_next_day _ _ _ _ _ _ Hd En) as [E1 _].
  destruct (ymd2ord_next_day _ _ _ _ _ _ Hd2 En2) as [E2 _].
  assert (ymd2ord y m d = ymd2ord y2 m2 d2) as E by lia.
  apply (f_equal ord2ymd) in E. rewrite !ord2ymd_ymd2ord in E by done.
  injection E as -> -> ->. repeat split; lia.
Qed.

Lemma eight_hours_later_valid y m d h y' m' d' h' :
  check_date_fields y m d = true -> 0 <= h <= 23 -> y < 9999 ->
  eight_hours_later y m d h = (y', m', d', h') ->
  check_date_fields y' m' d' = true /\ 0 <= h' <= 23.
Proof.
  intros Hd Hh Hy. unfold eight_hours_later.
  destruct (Z.ltb_spec h 16).
  - intros [= <- <- <- <-]. split; [done|lia].
  - destruct (next_day y m d) as [[y1 m1] d1] eqn:En.
    intros [= <- <- <- <-].
    destruct (ymd2ord_next_day _ _ _ _ _ _ Hd En) as [_ Hc].
    split; [by apply Hc|lia].
Qed.

Lemma Return_inj {A} (a b : A) : Return a = Return b -> a = b.
Proof. by intros [= ->]. Qed.

(** What the display string of a well-formed timestamp keeps of it. *)
Lemma convert_iso_timestamp_inj pf y m d h mi s y2 m2 d2 h2 mi2 s2 :
  check_date_fields y m d = true -> check_time_fields h mi s = true ->
  1992 <= y <= 9998 ->
  check_date_fields y2 m2 d2 = true -> check_time_fields h2 mi2 s2 = true ->
  1992 <= y2 <= 9998 ->
  convert_to_beijing_time pf (iso_timestamp y m d h mi s)
  = convert_to_beijing_time pf (iso_timestamp y2 m2 d2 h2 mi2 s2)
  <-> y = y2 /\ m = m2 /\ d = d2 /\ h = h2 /\ mi = mi2.
Proof.
  intros Hd Ht Hy Hd2 Ht2 Hy2.
  rewrite !convert_iso_timestamp_display by done.
  destruct (check_fields_ranges _ _ _ _ _ _ Hd Ht) as (_ & _ & _ & Hh & Hmi & _).
  destruct (check_fields_ranges _ _ _ _ _ _ Hd2 Ht2)
    as (_ & _ & _ & Hh2 & Hmi2 & _).
  split; [|by intros (-> & -> & -> & -> & ->)].
  destruct (eight_hours_later y m d h) as [[[Y M] D] H] eqn:E.
  destruct (eight_hours_later y2 m2 d2 h2) as [[[Y2 M2] D2] H2] eqn:E2.
  destruct (eight_hours_later_valid _ _ _ _ _ _ _ _ Hd Hh ltac:(lia) E)
    as [Hv HH].
  destruct (eight_hours_later_valid _ _ _ _ _ _ _ _ Hd2 Hh2 ltac:(lia) E2)
    as [Hv2 HH2].
  pose proof (days_in_month_le Y M). pose proof (days_in_month_le Y2 M2).
  apply check_date_fields_spec in Hv as (? & ? & ?).
  apply check_date_fields_spec in Hv2 as (? & ? & ?).
  intros Heq%Return_inj.
  apply beijing_display_inj in Heq as (-> & -> & -> & -> & ->); try lia.
  rewrite <- E2 in E.
  apply eight_hours_later_inj in E as (-> & -> & -> & ->); done.
Qed.

(** X12: the display string of a record whose [createdAt] is the
    zero-padded timestamp of a valid date and time of the years 1992 to
    9998, in closed form: before 16:00 UTC the same date and the hour
    plus eight, from 16:00 UTC on the next day of the calendar (the next
    month or year after the last day of one, 29 February in a leap year)
    and the hour minus sixteen; the hour is shown on the twelve-hour clock
    after AM or PM, the seconds are not shown. *)
Theorem created_at_of_well_formed_timestamp (w : World) (post : node)
    (y m d h mi s : Z) :
  createdAt post = iso_timestamp y m d h mi s ->
  check_date_fields y m d = true ->
  check_time_fields h mi s = true ->
  1992 <= y <= 9998 ->
  exists product,
    Product_init w post = Return product
    /\ created_at product
       = let '(y', m', d', h') := eight_hours_later y m d h in
         beijing_display y' m' d' h' mi.
Proof.
  intros Hc Hd Ht Hy.
  pose proof (convert_iso_timestamp_display (platform w) _ _ _ _ _ _ Hd Ht Hy)
    as Hconv.
  rewrite <- Hc in Hconv.
  destruct (Product_init_eq w post _ Hconv) as (image & _ & ->).
  by eexists.
Qed.

Lemma created_at_of_well_formed_timestamp_witness :
  exists product,
    Product_init offline
      (with_createdAt (sample_post 1) (u "2024-02-28T16:30:15Z"))
    = Return product
    /\ created_at product
       = (u "2024" ++ [24180] ++ u "02" ++ [26376] ++ u "29" ++ [26085]
          ++ u " AM12:30 (" ++ [21271; 20140; 26102; 38388] ++ u ")")%N.
Proof.
  destruct (created_at_of_well_formed_timestamp offline
              (with_createdAt (sample_post 1) (u "2024-02-28T16:30:15Z"))
              2024 2 28 16 30 15)
    as (product & HP & Hc); try reflexivity; [lia|].
  exists product. split; [exact HP|]. rewrite Hc. reflexivity.
Defined.

(** X13: two well-formed timestamps are shown by the same string exactly
    when they name the same minute: the seconds are dropped, and nothing
    else is. *)
Theorem created_at_tells_the_minute (pf : Platform)
    (y m d h mi s y2 m2 d2 h2 mi2 s2 : Z) :
  check_date_fields y m d = true -> check_time_fields h mi s = true ->
  1992 <= y <= 9998 ->
  check_date_fields y2 m2 d2 = true -> check_time_fields h2 mi2 s2 = true ->
  1992 <= y2 <= 9998 ->
  convert_to_beijing_time pf (iso_timestamp y m d h mi s)
  = convert_to_beijing_time pf (iso_timestamp y2 m2 d2 h2 mi2 s2)
  <-> y = y2 /\ m = m2 /\ d = d2 /\ h = h2 /\ mi = mi2.
Proof. apply convert_iso_timestamp_inj. Qed.

Lemma created_at_tells_the_minute_witness :
  convert_to_beijing_time plain_platform (u "2025-03-07T16:01:00Z")
  = convert_to_beijing_time plain_platform (u "2025-03-07T16:01:59Z").
Proof.
  apply (proj2 (created_at_tells_the_minute plain_platform
                  2025 3 7 16 1 0 2025 3 7 16 1 59
                  eq_refl eq_refl ltac:(lia) eq_refl eq_refl ltac:(lia))).
  by repeat split.
Defined.

(** X14: a zero-padded timestamp whose numbers lie in the intervals of
    the directives (a month 01..12, a day 01..31, an hour 00..23, a minute
    00..59, a second 00..61) is accepted by [strptime] exactly when the
    year is not 0000, the month has that day and the second is at most 59;
    otherwise the constructor raises [ValueError]: 30 February, 29
    February outside a leap year and 31 April are rejected. *)
Theorem padded_timestamp_needs_a_date_of_the_calendar (w : World) (post : node)
    (y m d h mi s : Z) :
  createdAt post = iso_timestamp y m d h mi s ->
  0 <= y <= 9999 -> 1 <= m <= 12 -> 1 <= d <= 31 ->
  0 <= h <= 23 -> 0 <= mi <= 59 -> 0 <= s <= 61 ->
  (returns (strptime (platform w) (createdAt post) utc_format)
   <-> 1 <= y /\ d <= days_in_month y m /\ s <= 59)
  /\ (~ (1 <= y /\ d <= days_in_month y m /\ s <= 59) ->
      Product_init w post = Raise ValueError).
Proof.
  intros Hc Hy Hm Hd Hh Hmi Hs.
  rewrite Hc at 1.
  rewrite strptime_padded_timestamp by done.
  assert (check_date_fields y m d && check_time_fields h mi s = true
          <-> 1 <= y /\ d <= days_in_month y m /\ s <= 59) as Hchk.
  { unfold check_date_fields, check_time_fields, MINYEAR, MAXYEAR.
    rewrite !andb_true_iff, !Z.leb_le. lia. }
  unfold make_datetime.
  destruct (check_date_fields y m d && check_time_fields h mi s) eqn:E.
  - split; [split; [intros _; by apply Hchk|intros _; by eexists]|].
    intros Hn. destruct Hn. by apply Hchk.
  - split.
    + split; [intros [? ?]; discriminate|].
      intros H%Hchk. discriminate.
    + intros _. apply Product_init_raises.
      apply convert_raises_of_strptime.
      rewrite Hc, strptime_padded_timestamp by done.
      unfold make_datetime. by rewrite E.
Qed.

Lemma padded_timestamp_needs_a_date_of_the_calendar_witness :
  Product_init offline
    (with_createdAt (sample_post 1) (u "2025-02-30T12:00:00Z"))
  = Raise ValueError.
Proof.
  apply (proj2 (padded_timestamp_needs_a_date_of_the_calendar offline
                  (with_createdAt (sample_post 1) (u "2025-02-30T12:00:00Z"))
                  2025 2 30 12 0 0 eq_refl ltac:(lia) ltac:(lia) ltac:(lia)
                  ltac:(lia) ltac:(lia) ltac:(lia))).
  vm_compute. intros (_ & H & _). exact (H eq_refl).
Defined.

(** * More on construction *)

(** X29: the network decides nothing of a product but its image: in two
    worlds with the same platform a record gives two products that agree
    in every field except, possibly, the image URL. *)
Theorem the_network_decides_only_the_image (w w' : World) (post : node)
    (product : Product) :
  platform w = platform w' ->
  Product_init w post = Return product ->
  exists image',
    get_image_url_from_media w' (node_url post) (media post) = Return image'
    /\ Product_init w' post
       = Return {| name := name product;
                   tagline := tagline product;
                   description := description product;
                   votes_count := votes_count product;
                   created_at := created_at product;
                   featured := featured product;
                   website := website product;
                   url := url product;
                   og_image_url := image';
                   keyword := keyword product |}.
Proof.
  intros Hpf HP.
  destruct (convert_to_beijing_time (platform w) (createdAt post))
    as [created|e] eqn:Hc.
  - destruct (Product_init_eq w post created Hc) as (image & _ & HP').
    rewrite HP' in HP. injection HP as <-.
    rewrite Hpf in Hc.
    destruct (Product_init_eq w' post created Hc) as (image' & Hi' & ->).
    exists image'. split; [done|]. cbn. by rewrite Hpf.
  - by rewrite (Product_init_raises w post e Hc) in HP.
Qed.

Lemma the_network_decides_only_the_image_witness :
  (og_image_url <$> Product_init offline (blank_post (u "2025-03-07T16:01:00Z")))
  = Return []
  /\ (og_image_url <$> Product_init (serving [og_image_card])
                         (blank_post (u "2025-03-07T16:01:00Z")))
     = Return (u "https://example.com/og.png").
Proof.
  assert (exists product,
            Product_init offline (blank_post (u "2025-03-07T16:01:00Z"))
            = Return product) as [product HP] by (eexists; vm_compute; reflexivity).
  destruct (the_network_decides_only_the_image offline (serving [og_image_card])
              _ product eq_refl HP) as (image' & Hi & ->).
  rewrite HP. split.
  - vm_compute in HP. injection HP as <-. reflexivity.
  - vm_compute in Hi. injection Hi as <-. reflexivity.
Defined.

(** * More on fetching *)

(** ** What the fetch returns and what it raises *)

Lemma list_comprehension_Forall2 {A B} (f : A -> result B) l ys :
  list_comprehension f l = Return ys ->
  Forall2 (fun x y => f x = Return y) l ys.
Proof.
  revert ys. induction l as [|x l IH]; intros ys; simpl.
  - intros [= <-]. constructor.
  - destruct (f x) as [y|e] eqn:Hx; simpl; [|done].
    destruct (list_comprehension f l) as [ys'|e]; simpl; [|done].
    intros [= <-]. constructor; [done|by apply IH].
Qed.


Lemma descending_never_increasing l :
  descending l <-> never_increasing (List.map votesCount l).
Proof.
  induction l as [|x l IH]; simpl; [done|].
  rewrite IH, List.Forall_map. done.
Qed.

Lemma Forall_take {A} (P : A -> Prop) n l : Forall P l -> Forall P (take n l).
Proof.
  intros H. revert n. induction H as [|x l Hx _ IH]; intros [|n]; simpl;
    constructor; auto.
Qed.

Lemma descending_take n l : descending l -> descending (take n l).
Proof.
  revert n. induction l as [|x l IH]; intros [|n]; simpl; try done.
  intros [Hx Hl]. split; [by apply Forall_take|by apply IH].
Qed.

Lemma never_increasing_take n l :
  never_increasing l -> never_increasing (take n l).
Proof.
  revert n. induction l as [|x l IH]; intros [|n]; simpl; try done.
  intros [Hx Hl]. split; [by apply Forall_take|by apply IH].
Qed.


Lemma Product_init_copies w post product :
  Product_init w post = Return product ->
  votes_count product = votesCount post /\ name product = node_name post.
Proof.
  destruct (convert_to_beijing_time (platform w) (createdAt post))
    as [created|e'] eqn:Hc.
  - destruct (Product_init_eq w post created Hc) as (image & _ & ->).
    by intros [= <-].
  - by rewrite (Product_init_raises w post e' Hc).
Qed.

Lemma Forall2_votes w posts products :
  Forall2 (fun post product => Product_init w post = Return product)
    posts products ->
  List.map votes_count products = List.map votesCount posts.
Proof.
  induction 1 as [|post product posts products H _ IH]; simpl; [done|].
  f_equal; [by apply Product_init_copies in H as [? _]|done].
Qed.

(** What a successful fetch returns. *)
Lemma fetch_product_hunt_data_Return w fuel products :
  fetch_product_hunt_data w fuel = Some (Return products) ->
  exists st,
    fetch_loop w (date_yesterday w) fuel initial_fetch_state = Some (Return st)
    /\ Forall2 (fun post product => Product_init w post = Return product)
         (take 30 (sorted_by_votes (all_posts st))) products
    /\ never_increasing (List.map votes_count products).
Proof.
  rewrite fetch_product_hunt_data_eq.
  destruct (fetch_loop _ _ _ _) as [[st|e]|] eqn:Hloop; [|done..].
  intros [= H%list_comprehension_Forall2].
  exists st. split; [done|]. split; [done|].
  rewrite (Forall2_votes _ _ _ H). apply descending_never_increasing.
  apply descending_take, sorted_by_votes_descending.
Qed.

(** X15: the products a fetch returns are built, one for one and in that
    order, from the first thirty of the collected records sorted by
    votes: there are min(30, n) of them for n collected records, their
    votes never increase along the list, and each of them comes from a
    record the API served. *)
Theorem fetched_products_are_sorted (w : World) (fuel : nat)
    (products : list Product) :
  fetch_product_hunt_data w fuel = Some (Return products) ->
  exists st,
    iterates w (date_yesterday w) initial_fetch_state st
    /\ Forall2 (fun post product => Product_init w post = Return product)
         (take 30 (sorted_by_votes (all_posts st))) products
    /\ length products = Nat.min 30 (length (all_posts st))
    /\ never_increasing (List.map votes_count products)
    /\ Forall (fun product =>
                 exists post, post ∈ all_posts st
                              /\ Product_init w post = Return product)
         products.
Proof.
  intros (st & Hloop & H2 & Hd)%fetch_product_hunt_data_Return.
  exists st. split; [by eapply fetch_loop_iterates|].
  split; [done|].
  split.
  { apply Forall2_length in H2. rewrite <- H2, length_take.
    by rewrite (Permutation_length (sorted_by_votes_Permutation _)). }
  split; [done|].
  apply List.Forall_forall. intros product Hin%list_elem_of_In.
  apply list_elem_of_lookup in Hin as [i Hi].
  destruct (Forall2_lookup_r _ _ _ _ _ H2 Hi) as (post & Hpost & HP).
  exists post. split; [|done].
  apply list_elem_of_lookup_2, elem_of_take in Hpost as (j & Hj & _).
  rewrite <- (sorted_by_votes_Permutation (all_posts st)).
  by eapply list_elem_of_lookup_2.
Qed.

Lemma fetched_products_are_sorted_witness :
  never_increasing
    (List.map votes_count
       (replicate 20 (sample_product 2) ++ replicate 10 (sample_product 1))).
Proof.
  destruct (fetched_products_are_sorted two_pages 2
              (replicate 20 (sample_product 2)
               ++ replicate 10 (sample_product 1)))
    as (st & _ & _ & _ & H & _); [vm_compute; reflexivity|exact H].
Defined.


Lemma fetch_step_Return_inv w date_str st st' :
  fetch_step w date_str st = Return st' ->
  exists page,
    graphql_posts w date_str (cursor st) = Return page
    /\ st' = {| all_posts := all_posts st ++ nodes page;
                has_next_page := hasNextPage page;
                cursor := endCursor page;
                requests_sent := requests_sent st ++ [cursor st] |}.
Proof.
  unfold fetch_step.
  destruct (graphql_posts w date_str (cursor st)) as [page|e0]; simpl.
  - intros [= <-]. by exists page.
  - by destruct (is_RequestException e0).
Qed.








(** The loop from any state: the pages it was served, each asked for
    with the end cursor of the one before, are appended in that order. *)
Lemma iterates_served w date_str st st' :
  iterates w date_str st st' ->
  exists pages,
    served w date_str (cursor st) pages
    /\ all_posts st' = all_posts st ++ concat (List.map nodes pages)
    /\ requests_sent st'
       = requests_sent st
         ++ take (length pages) (cursor st :: List.map endCursor pages)
    /\ has_next_page st'
       = last (has_next_page st :: List.map hasNextPage pages) true
    /\ cursor st' = last (cursor st :: List.map endCursor pages) [].
Proof.
  induction 1 as [st H|st st1 st' Hc Hs _ (pages & Hp & Ha & Hr & Hn & Hcur)].
  - exists []. split; [constructor|]. simpl. by rewrite !app_nil_r.
  - apply fetch_step_Return_inv in Hs as (page & Hpage & ->).
    cbn [all_posts has_next_page cursor requests_sent] in *.
    exists (page :: pages). split; [by econstructor|].
    split; [by rewrite Ha, <- app_assoc|].
    split; [by rewrite Hr, <- app_assoc|].
    split.
    + rewrite Hn. simpl. by destruct (List.map hasNextPage pages).
    + rewrite Hcur. simpl. by destruct (List.map endCursor pages).
Qed.

(** X18: when the loop ends, the collected records are the records of the
    pages that were served, in the order of the pages; the first request
    carries the empty cursor and every later one the end cursor of the
    reply before; one request was sent for each page. *)
Theorem fetch_collects_the_pages_in_order (w : World) (st : fetch_state) :
  iterates w (date_yesterday w) initial_fetch_state st ->
  exists pages,
    served w (date_yesterday w) [] pages
    /\ all_posts st = concat (List.map nodes pages)
    /\ requests_sent st = take (length pages) ([] :: List.map endCursor pages)
    /\ length (requests_sent st) = length pages.
Proof.
  intros (pages & Hp & Ha & Hr & _)%iterates_served.
  exists pages. cbn in *. split; [done|]. split; [done|]. split; [done|].
  rewrite Hr, length_take. simpl. rewrite length_map. lia.
Qed.

Lemma fetch_collects_the_pages_in_order_witness :
  exists pages,
    served two_pages (date_yesterday two_pages) [] pages
    /\ nodes first_page ++ nodes second_page = concat (List.map nodes pages)
    /\ length pages = 2%nat.
Proof.
  destruct (fetch_collects_the_pages_in_order two_pages
              {| all_posts := nodes first_page ++ nodes second_page;
                 has_next_page := false;
                 cursor := u "NDU";
                 requests_sent := [[]; u "MjU"] |})
    as (pages & Hp & Ha & _ & Hlen).
  - apply (fetch_loop_iterates _ _ 2). reflexivity.
  - exists pages. split; [exact Hp|]. split; [exact Ha|]. by rewrite <- Hlen.
Defined.

(** ** A fetch that never ends *)

Lemma fetch_loop_empty_pages w date_str fuel st :
  (forall c, exists page,
     graphql_posts w date_str c = Return page
     /\ nodes page = [] /\ hasNextPage page = true) ->
  all_posts st = [] -> has_next_page st = true ->
  fetch_loop w date_str fuel st = None.
Proof.
  intros Hpages. revert st. induction fuel as [|fuel IH]; intros st Ha Hn.
  - simpl. unfold loop_condition. by rewrite Ha, Hn.
  - rewrite fetch_loop_step by (unfold loop_condition; by rewrite Ha, Hn).
    unfold fetch_step.
    destruct (Hpages (cursor st)) as (page & -> & Hnodes & Hnext).
    cbn [mbind result_bind mret result_ret try_except].
    apply IH; cbn; [by rewrite Ha, Hnodes|done].
Qed.

(** X19: when every reply announces a next page and brings no record, the
    loop runs for ever: whatever the bound, neither the fetch nor the job
    has returned. *)
Theorem fetch_never_ends_on_empty_pages (w : World) :
  (forall c, exists page,
     graphql_posts w (date_yesterday w) c = Return page
     /\ nodes page = [] /\ hasNextPage page = true) ->
  forall fuel,
    fetch_product_hunt_data w fuel = None /\ main w fuel = None.
Proof.
  intros Hpages fuel.
  assert (fetch_product_hunt_data w fuel = None) as H.
  { rewrite fetch_product_hunt_data_eq.
    by rewrite (fetch_loop_empty_pages w _ fuel initial_fetch_state Hpages). }
  split; [done|]. unfold main. by rewrite H.
Qed.

Lemma fetch_never_ends_on_empty_pages_witness :
  main empty_pages 1000 = None.
Proof.
  apply (fetch_never_ends_on_empty_pages empty_pages).
  intros c. eexists. split; [reflexivity|]. split; reflexivity.
Defined.

(** * More on publishing *)

(** ** The published document *)

(** The entries of the product list: numbered from 1, in the order of the
    products. *)
Lemma product_infos l :
  List.map rank (imap product_info_of l)
  = List.map Z.of_nat (seq 1 (length l))
  /\ List.map info_name (imap product_info_of l) = List.map name l
  /\ List.map info_votes (imap product_info_of l) = List.map votes_count l
  /\ Forall (fun e => media_kind e
                      = if str_truthy (info_image e) then picture else no_picture)
       (imap product_info_of l).
Proof.
  repeat split.
  - apply list_eq. intros i.
    change (List.map rank (imap product_info_of l))
      with (rank <$> imap product_info_of l).
    change (List.map Z.of_nat (seq 1 (length l)))
      with (Z.of_nat <$> seq 1 (length l)).
    rewrite !list_lookup_fmap, list_lookup_imap.
    destruct (l !! i) as [p|] eqn:E; simpl.
    + rewrite lookup_seq_lt by (by eapply lookup_lt_Some). simpl.
      f_equal. lia.
    + rewrite lookup_seq_ge by (by apply lookup_ge_None). done.
  - apply list_eq. intros i.
    change (List.map info_name (imap product_info_of l))
      with (info_name <$> imap product_info_of l).
    change (List.map name l) with (name <$> l).
    rewrite !list_lookup_fmap, list_lookup_imap. by destruct (l !! i).
  - apply list_eq. intros i.
    change (List.map info_votes (imap product_info_of l))
      with (info_votes <$> imap product_info_of l).
    change (List.map votes_count l) with (votes_count <$> l).
    rewrite !list_lookup_fmap, list_lookup_imap. by destruct (l !! i).
  - apply List.Forall_forall. intros e He%list_elem_of_In.
    apply elem_of_lookup_imap_1 in He as (i & p & -> & _). done.
Qed.

Lemma sum_votes_take_ten products :
  sum_votes (take 10 products)
  = fold_right Z.add 0
      (List.map info_votes (imap product_info_of (take 10 products))).
Proof.
  destruct (product_infos (take 10 products)) as (_ & _ & -> & _).
  apply sum_votes_map.
Qed.

(** The document that is posted, read as a whole. *)
Lemma send_to_webhook_document (w : World) (products : list Product) :
  exists s,
    send_to_webhook w products = Return s
    /\ let doc := posted s in
       let entries := products_data doc in
       length entries = Nat.min 10 (length products)
       /\ product_count doc = Z.of_nat (length entries)
       /\ List.map rank entries = List.map Z.of_nat (seq 1 (length entries))
       /\ List.map info_name entries = take 10 (List.map name products)
       /\ List.map info_votes entries = take 10 (List.map votes_count products)
       /\ Forall (fun e => media_kind e
                           = if str_truthy (info_image e)
                             then picture else no_picture) entries
       /\ total_votes doc = fold_right Z.add 0 (List.map info_votes entries)
       /\ max_votes doc = default 0 (info_votes <$> entries !! 0%nat)
       /\ min_votes doc
          = default 0 (info_votes <$> entries !! (length entries - 1)%nat)
       /\ (entries <> [] ->
           avg_votes doc * product_count doc <= total_votes doc
           < (avg_votes doc + 1) * product_count doc).
Proof.
  destruct (product_infos (take 10 products)) as (Hrank & Hname & Hvotes & Hkind).
  assert (length (imap product_info_of (take 10 products))
          = Nat.min 10 (length products)) as Hlen
    by (by rewrite length_imap, length_take).
  destruct products as [|p l] eqn:Hp.
  - destruct (send_to_webhook_eq w [] _ (build_document_nil w)) as [ok ->].
    eexists. split; [reflexivity|]. cbn. by repeat split.
  - rewrite <- Hp in *.
    destruct (build_document_cons w p l) as [lowest [Hl Hd]].
    rewrite <- Hp in Hl, Hd.
    destruct (send_to_webhook_eq w _ _ Hd) as [ok ->].
    eexists. split; [reflexivity|].
    cbn [posted products_data product_count total_votes avg_votes max_votes
         min_votes].
    assert (0 < Nat.min 10 (length products))%nat as Hpos
      by (rewrite Hp; simpl; lia).
    split; [done|]. split; [by rewrite Hlen|].
    split; [by rewrite Hrank, length_imap|].
    split; [by rewrite Hname, <- firstn_map|].
    split; [by rewrite Hvotes, <- firstn_map|].
    split; [done|]. split; [apply sum_votes_take_ten|].
    split.
    { rewrite list_lookup_imap, lookup_take_lt by lia. by rewrite Hp. }
    split.
    { rewrite list_lookup_imap, Hlen, lookup_take_lt by lia.
      replace (Nat.min 10 (length products) - 1)%nat
        with (Nat.min 9 (length products - 1)) by lia.
      by rewrite Hl. }
    intros _.
    set (k := Z.of_nat (Nat.min 10 (length products))).
    assert (0 < k) as Hk by (unfold k; lia).
    generalize (sum_votes (take 10 products)). intros t.
    pose proof (Z.div_mod t k ltac:(lia)) as Hdm.
    pose proof (Z.mod_pos_bound t k Hk). nia.
Qed.

(** X20: the document that is posted is consistent with its own product
    list, for every list of products: the list has min(10, n) entries,
    ranked 1, 2, ... in the order of the products, each with the name and
    the votes of its product and the media type 图片 exactly when it has an
    image; the count is the number of entries, the total the sum of their
    votes, the maximum the votes of the first entry, the minimum the votes
    of the last, and the average the floor of total over count. *)
Theorem document_is_consistent (w : World) (products : list Product) :
  exists s,
    send_to_webhook w products = Return s
    /\ let doc := posted s in
       let entries := products_data doc in
       length entries = Nat.min 10 (length products)
       /\ product_count doc = Z.of_nat (length entries)
       /\ List.map rank entries = List.map Z.of_nat (seq 1 (length entries))
       /\ List.map info_name entries = take 10 (List.map name products)
       /\ List.map info_votes entries = take 10 (List.map votes_count products)
       /\ Forall (fun e => media_kind e
                           = if str_truthy (info_image e)
                             then picture else no_picture) entries
       /\ total_votes doc = fold_right Z.add 0 (List.map info_votes entries)
       /\ max_votes doc = default 0 (info_votes <$> entries !! 0%nat)
       /\ min_votes doc
          = default 0 (info_votes <$> entries !! (length entries - 1)%nat)
       /\ (entries <> [] ->
           avg_votes doc * product_count doc <= total_votes doc
           < (avg_votes doc + 1) * product_count doc).
Proof. apply send_to_webhook_document. Qed.

Lemma never_increasing_lookup l i j x y :
  never_increasing l -> l !! i = Some x -> l !! j = Some y ->
  (i <= j)%nat -> y <= x.
Proof.
  revert i j. induction l as [|v l IH]; intros i j; simpl; [done|].
  intros [Hv Hl] Hi Hj Hle.
  destruct i as [|i], j as [|j]; simpl in *; try lia.
  - injection Hi as ->. injection Hj as ->. lia.
  - injection Hi as ->. rewrite List.Forall_forall in Hv. apply Hv.
    by eapply list_elem_of_In, list_elem_of_lookup_2.
  - eapply IH; eauto. lia.
Qed.

Lemma sum_bounds lo hi l :
  Forall (fun v => lo <= v <= hi) l ->
  Z.of_nat (length l) * lo <= fold_right Z.add 0 l <= Z.of_nat (length l) * hi.
Proof.
  induction 1 as [|v l Hv _ IH]; simpl length; simpl fold_right; lia.
Qed.

(** The statistics of a list in descending order of votes. *)
Lemma statistics_of_sorted_products w products s :
  never_increasing (List.map votes_count products) ->
  send_to_webhook w products = Return s ->
  let doc := posted s in
  let entries := products_data doc in
  (length entries <= 10)%nat
  /\ never_increasing (List.map info_votes entries)
  /\ Forall (fun e => min_votes doc <= info_votes e <= max_votes doc) entries
  /\ (entries <> [] -> min_votes doc <= avg_votes doc <= max_votes doc).
Proof.
  intros Hsorted Hs.
  destruct (send_to_webhook_document w products)
    as (s' & Hs' & Hlen & Hcount & _ & _ & Hvotes & _ & Htotal & Hmax & Hmin & Havg).
  rewrite Hs in Hs'. injection Hs' as <-.
  cbv zeta.
  set (doc := posted s) in *. set (entries := products_data doc) in *.
  assert (never_increasing (List.map info_votes entries)) as Hdesc
    by (rewrite Hvotes; by apply never_increasing_take).
  assert (Forall (fun e => min_votes doc <= info_votes e <= max_votes doc)
            entries) as Hall.
  { apply List.Forall_forall. intros e He%list_elem_of_In.
    apply list_elem_of_lookup in He as [i Hi].
    assert (i < length entries)%nat as Hlt by (by eapply lookup_lt_Some).
    assert (List.map info_votes entries !! i = Some (info_votes e)) as Hi'.
    { change (List.map info_votes entries) with (info_votes <$> entries).
      by rewrite list_lookup_fmap, Hi. }
    destruct (lookup_lt_is_Some_2 entries 0) as [e0 H0]; [lia|].
    destruct (lookup_lt_is_Some_2 entries (length entries - 1)) as [e9 H9];
      [lia|].
    rewrite Hmax, Hmin, H0, H9. simpl. split.
    - eapply (never_increasing_lookup _ i (length entries - 1)); eauto; [|lia].
      change (List.map info_votes entries) with (info_votes <$> entries).
      by rewrite list_lookup_fmap, H9.
    - eapply (never_increasing_lookup _ 0 i); eauto; [|lia].
      change (List.map info_votes entries) with (info_votes <$> entries).
      by rewrite list_lookup_fmap, H0. }
  split; [rewrite Hlen; lia|]. split; [done|]. split; [done|].
  intros Hne. specialize (Havg Hne).
  assert (0 < length entries)%nat as Hpos by (destruct entries; [done|simpl; lia]).
  pose proof (sum_bounds (min_votes doc) (max_votes doc)
                (List.map info_votes entries)) as Hsum.
  rewrite length_map, <- Htotal, <- Hcount in Hsum.
  rewrite List.Forall_map in Hsum. specialize (Hsum Hall).
  assert (0 < product_count doc) by lia.
  nia.
Qed.

(** X21: in every document the job posts, after a fetch or with the
    fallback data, the entries are in descending order of votes, so that
    the maximum and the minimum of the statistics are the largest and the
    smallest votes of the entries, and the average lies between them. *)
Theorem main_statistics_are_the_extremes (w : World) (fuel : nat) (s : sent) :
  main w fuel = Some (Return s) ->
  let doc := posted s in
  let entries := products_data doc in
  (length entries <= 10)%nat
  /\ never_increasing (List.map info_votes entries)
  /\ Forall (fun e => min_votes doc <= info_votes e <= max_votes doc) entries
  /\ (entries <> [] -> min_votes doc <= avg_votes doc <= max_votes doc).
Proof.
  unfold main.
  destruct (fetch_product_hunt_data w fuel) as [[products|e]|] eqn:Hf; [| |done].
  - cbn [try_except mbind result_bind]. intros [= Hs].
    apply fetch_product_hunt_data_Return in Hf as (st & _ & _ & Hsorted).
    by eapply statistics_of_sorted_products.
  - cbn [try_except any_Exception mbind result_bind].
    destruct (fetch_mock_data_returns w) as (mock & -> & _ & _ & Hvotes).
    cbn [mbind result_bind]. intros [= Hs].
    eapply statistics_of_sorted_products; [|exact Hs].
    rewrite Hvotes. simpl. repeat constructor; lia.
Qed.

Lemma main_statistics_are_the_extremes_witness :
  exists s,
    main two_pages 2 = Some (Return s)
    /\ min_votes (posted s) <= avg_votes (posted s) <= max_votes (posted s).
Proof.
  assert (exists s, main two_pages 2 = Some (Return s)) as [s Hs]
    by (eexists; vm_compute; reflexivity).
  exists s. split; [exact Hs|].
  apply (main_statistics_are_the_extremes two_pages 2 s Hs).
  vm_compute in Hs. injection Hs as <-. discriminate.
Defined.

(** ** Only the first ten products *)

Lemma build_document_take_ten w products :
  build_document w (take 10 products) = build_document w products.
Proof.
  destruct products as [|p l]; [done|].
  destruct (build_document_cons w p l) as [lowest [Hl ->]].
  change (take 10 (p :: l)) with (p :: take 9 l).
  destruct (build_document_cons w p (take 9 l)) as [lowest' [Hl' ->]].
  change (p :: take 9 l) with (take 10 (p :: l)) in *.
  set (products := p :: l) in *.
  assert (length (take 10 products) = Nat.min 10 (length products)) as Hlen
    by apply length_take.
  assert (0 < length products)%nat as Hpos by (unfold products; simpl; lia).
  rewrite Hlen in *.
  rewrite take_take in *. 
  replace (Nat.min 10 (Nat.min 10 (length products)))
    with (Nat.min 10 (length products)) by lia.
  rewrite lookup_take_lt in Hl' by lia.
  replace (Nat.min 9 (Nat.min 10 (length products) - 1))
    with (Nat.min 9 (length products - 1)) in Hl' by lia.
  rewrite Hl in Hl'. injection Hl' as <-.
  replace (Nat.min 10 10) with 10%nat by reflexivity.
  reflexivity.
Qed.

(** X22: products after the tenth play no part: the call posts the same
    document and returns the same flag as for the first ten alone. *)
Theorem only_the_first_ten_are_published (w : World) (products : list Product) :
  send_to_webhook w products = send_to_webhook w (take 10 products).
Proof.
  unfold send_to_webhook. by rewrite build_document_take_ten.
Qed.

(** ** The job, end to end *)




(** * More on keywords *)

(** ** The name among the keywords *)

Lemma str_split_one sep s :
  Forall (fun c => c <> sep) s -> str_split sep s = [s].
Proof.
  induction 1 as [|c s Hc _ IH]; simpl; [done|].
  apply N.eqb_neq in Hc. by rewrite Hc, IH.
Qed.

Lemma str_replace_same old new s :
  Forall (fun c => c <> old) s -> str_replace old new s = s.
Proof.
  induction 1 as [|c s Hc _ IH]; simpl; [done|].
  apply N.eqb_neq in Hc. rewrite Hc. f_equal. exact IH.
Qed.

Lemma is_separator_false c :
  is_separator c = false
  <-> c <> comma /\ c <> ampersand /\ c <> pipe /\ c <> hyphen.
Proof.
  unfold is_separator. rewrite !orb_false_iff, !N.eqb_neq. tauto.
Qed.

Lemma normalize_separators_same s :
  Forall (fun c => is_separator c = false) s -> normalize_separators s = s.
Proof.
  intros H. unfold normalize_separators.
  assert (forall sep, is_separator sep = true -> Forall (fun c => c <> sep) s)
    as Hs.
  { intros sep Hsep. eapply List.Forall_impl; [|exact H]. simpl.
    intros c Hc ->. congruence. }
  rewrite (str_replace_same ampersand) by (by apply Hs).
  rewrite (str_replace_same pipe) by (by apply Hs).
  by rewrite (str_replace_same hyphen) by (by apply Hs).
Qed.

(** The name is the first piece when it holds no separator. *)
Lemma name_is_a_piece name tagline :
  Forall (fun c => is_separator c = false) name ->
  name ∈ keyword_pieces name tagline.
Proof.
  intros H. unfold keyword_pieces.
  rewrite normalize_separators_app, normalize_separators_same by done.
  rewrite normalize_separators_app.
  change (normalize_separators comma_space) with [comma; 32%N].
  change (name ++ [comma; 32%N] ++ normalize_separators tagline)
    with (name ++ comma :: [32%N] ++ normalize_separators tagline).
  rewrite str_split_app, str_split_one.
  - by left.
  - eapply List.Forall_impl; [|exact H]. simpl.
    intros c Hc%is_separator_false. tauto.
Qed.

(** X24: a name without any of the four separators that is not blank is
    itself, trimmed, one of the keywords. *)
Theorem name_is_a_keyword (pf : Platform) (name tagline : str) :
  Forall (fun c => is_separator c = false) name ->
  str_strip name <> [] ->
  str_strip name ∈ keyword_tokens pf name tagline.
Proof.
  intros Hsep Hne. apply keyword_tokens_spec. split; [done|].
  exists name. split; [by apply name_is_a_piece|done].
Qed.

Lemma name_is_a_keyword_witness :
  u "Mistral OCR"
  ∈ keyword_tokens plain_platform (u " Mistral OCR ")
      (u "Introducing the world's most powerful document understanding API").
Proof.
  apply (name_is_a_keyword plain_platform (u " Mistral OCR ")).
  - vm_compute. repeat constructor.
  - vm_compute. discriminate.
Defined.

(** ** When there is no keyword at all *)

Lemma str_lstrip_keeps s c :
  c ∈ s -> is_space c = false -> c ∈ str_lstrip s.
Proof.
  induction s as [|d s IH]; simpl; [done|].
  intros Hin Hc. destruct (is_space d) eqn:Ed; [|done].
  apply elem_of_cons in Hin as [->|Hin]; [congruence|by apply IH].
Qed.

Lemma str_strip_keeps s c :
  c ∈ s -> is_space c = false -> c ∈ str_strip s.
Proof.
  intros Hin Hc. unfold str_strip, str_rstrip.
  apply elem_of_rev, str_lstrip_keeps; [|done].
  apply elem_of_rev. by apply str_lstrip_keeps.
Qed.

Lemma str_lstrip_blank s : Forall (fun c => is_space c = true) s -> str_lstrip s = [].
Proof. induction 1 as [|c s Hc _ IH]; simpl; [done|]. by rewrite Hc. Qed.

(** A string is trimmed to nothing exactly when it holds blanks only. *)
Lemma str_strip_nil s :
  str_strip s = [] <-> Forall (fun c => is_space c = true) s.
Proof.
  split.
  - intros H. apply List.Forall_forall. intros c Hin%list_elem_of_In.
    destruct (is_space c) eqn:E; [done|].
    pose proof (str_strip_keeps s c Hin E) as Hc. rewrite H in Hc.
    by apply elem_of_nil in Hc.
  - intros H. unfold str_strip. by rewrite str_lstrip_blank.
Qed.

(** Every character that is not the separator lies in some piece. *)
Lemma str_split_covers sep s c :
  c ∈ s -> c <> sep -> exists w, w ∈ str_split sep s /\ c ∈ w.
Proof.
  induction s as [|d s IH]; simpl; [by intros ?%elem_of_nil|].
  intros Hin Hc. destruct (d =? sep)%N eqn:E.
  - apply N.eqb_eq in E. subst d.
    apply elem_of_cons in Hin as [->|Hin]; [done|].
    destruct (IH Hin Hc) as (w & Hw & Hcw). exists w. split; [by right|done].
  - pose proof (str_split_nonempty sep s).
    destruct (str_split sep s) as [|w0 ws] eqn:Es; [done|].
    apply elem_of_cons in Hin as [->|Hin].
    + exists (d :: w0). split; by left.
    + destruct (IH Hin Hc) as (w & Hw & Hcw).
      apply elem_of_cons in Hw as [->|Hw].
      * exists (d :: w0). split; [by left|by right].
      * exists w. split; [by right|done].
Qed.

Lemma str_replace_keeps old new s c :
  c ∈ s -> c <> old -> c ∈ str_replace old new s.
Proof.
  intros Hin Hc. unfold str_replace. apply list_elem_of_In, in_map_iff.
  exists c. apply N.eqb_neq in Hc. rewrite Hc. split; [done|].
  by apply list_elem_of_In.
Qed.

Lemma normalize_separators_keeps s c :
  c ∈ s -> is_separator c = false -> c ∈ normalize_separators s.
Proof.
  intros Hin (_ & ? & ? & ?)%is_separator_false. unfold normalize_separators.
  by repeat apply str_replace_keeps.
Qed.

Lemma normalize_separators_from s c :
  c ∈ normalize_separators s -> c <> comma -> c ∈ s /\ is_separator c = false.
Proof.
  unfold normalize_separators. intros H Hcomma.
  apply str_replace_chars in H as [->|[H1 H]]; [done|].
  apply str_replace_chars in H as [->|[H2 H]]; [done|].
  apply str_replace_chars in H as [->|[H3 H]]; [done|].
  split; [done|]. by apply is_separator_false.
Qed.

Lemma str_join_nil sep l :
  Forall (fun t => t <> []) l -> str_join sep l = [] -> l = [].
Proof.
  destruct 1 as [|t l Ht _]; [done|]. simpl.
  destruct l; [done|]. by destruct t.
Qed.

(** There is no token exactly when name and tagline hold nothing but
    blanks and separators. *)
Lemma keyword_tokens_nil pf name tagline :
  keyword_tokens pf name tagline = []
  <-> Forall (fun c => is_blank_or_separator c = true) (name ++ tagline).
Proof.
  split.
  - intros Hnil. apply List.Forall_forall. intros c Hin%list_elem_of_In.
    unfold is_blank_or_separator.
    destruct (is_separator c) eqn:Es; [apply orb_true_r|].
    rewrite orb_false_r.
    assert (c ∈ normalize_separators (name ++ comma_space ++ tagline)) as Hn.
    { apply normalize_separators_keeps; [|done].
      apply elem_of_app in Hin as [Hin|Hin]; apply elem_of_app;
        [by left|right; apply elem_of_app; by right]. }
    apply is_separator_false in Es as (Hcomma & _).
    destruct (str_split_covers comma _ c Hn Hcomma) as (piece & Hp & Hc).
    destruct (is_space c) eqn:E; [done|]. exfalso.
    assert (str_strip piece ∈ keyword_tokens pf name tagline) as Ht.
    { apply keyword_tokens_spec. split; [|by exists piece].
      intros Hs. pose proof (str_strip_keeps piece c Hc E) as Hk.
      rewrite Hs in Hk. by apply elem_of_nil in Hk. }
    rewrite Hnil in Ht. by apply elem_of_nil in Ht.
  - intros Hall. destruct (keyword_tokens pf name tagline) as [|t ts] eqn:E;
      [done|]. exfalso.
    assert (t ∈ keyword_tokens pf name tagline) as Ht by (rewrite E; by left).
    apply keyword_tokens_spec in Ht as (Hne & piece & Hp & ->).
    apply Hne, str_strip_nil, List.Forall_forall. intros c Hc%list_elem_of_In.
    destruct (str_split_chars _ _ _ _ Hp Hc) as [Hcomma Hn].
    apply normalize_separators_from in Hn as [Hn Hs]; [|done].
    apply elem_of_app in Hn as [Hn|Hn].
    + rewrite List.Forall_forall in Hall.
      specialize (Hall c ltac:(apply list_elem_of_In, elem_of_app; by left)).
      unfold is_blank_or_separator in Hall. by rewrite Hs, orb_false_r in Hall.
    + apply elem_of_app in Hn as [Hn|Hn].
      * apply elem_of_cons in Hn as [->|Hn]; [done|].
        apply list_elem_of_singleton in Hn as ->. reflexivity.
      * rewrite List.Forall_forall in Hall.
        specialize (Hall c ltac:(apply list_elem_of_In, elem_of_app; by right)).
        unfold is_blank_or_separator in Hall.
        by rewrite Hs, orb_false_r in Hall.
Qed.

(** X25: the keyword string is empty exactly when name and tagline hold
    nothing but blanks and separators. *)
Theorem keyword_is_empty_exactly_for_blank_text (pf : Platform)
    (name tagline : str) :
  generate_keywords pf name tagline = Return []
  <-> Forall (fun c => is_blank_or_separator c = true) (name ++ tagline).
Proof.
  rewrite generate_keywords_eq, <- (keyword_tokens_nil pf). split.
  - intros [= H]. apply (str_join_nil comma_space); [|done].
    eapply List.Forall_impl; [|apply keyword_tokens_trimmed]. by intros t [_ ?].
  - by intros ->.
Qed.

(** ** Reading the keyword string back *)

Lemma str_split_cons_other sep c s :
  c <> sep ->
  str_split sep (c :: s)
  = match str_split sep s with
    | [] => [[c]]
    | w :: ws => (c :: w) :: ws
    end.
Proof. intros Hc%N.eqb_neq. simpl. by rewrite Hc. Qed.

(** The comma-separated pieces of a joined list of strings without
    commas: the first string, and every other one after a blank. *)
Lemma str_split_join t ts :
  Forall (fun t => Forall (fun c => c <> comma) t) (t :: ts) ->
  str_split comma (str_join comma_space (t :: ts))
  = t :: List.map (cons 32%N) ts.
Proof.
  revert t. induction ts as [|t' ts IH]; intros t Hall.
  - simpl. apply str_split_one. by inversion Hall.
  - inversion Hall as [|? ? Ht Hts]; subst.
    change (str_join comma_space (t :: t' :: ts))
      with (t ++ comma :: 32%N :: str_join comma_space (t' :: ts)).
    rewrite str_split_app, str_split_one by done.
    rewrite str_split_cons_other by done. by rewrite IH.
Qed.

Lemma str_strip_after_blank t : trimmed t -> str_strip (32%N :: t) = t.
Proof.
  intros Ht. unfold str_strip.
  change (str_lstrip (32%N :: t)) with (str_lstrip t).
  by apply trimmed_strip.
Qed.

(** X26: the keyword string can be read back: split at the commas, with
    the pieces trimmed and the empty ones dropped, it gives the tokens it
    was joined from, in their order. *)
Theorem keyword_string_reads_back (pf : Platform) (name tagline : str) :
  exists kw,
    generate_keywords pf name tagline = Return kw
    /\ List.filter str_truthy (List.map str_strip (str_split comma kw))
       = keyword_tokens pf name tagline.
Proof.
  eexists. split; [apply generate_keywords_eq|].
  pose proof (keyword_tokens_trimmed pf name tagline) as Htrim.
  assert (Forall (fun t => Forall (fun c => c <> comma) t)
            (keyword_tokens pf name tagline)) as Hcomma.
  { apply List.Forall_forall. intros t Ht%list_elem_of_In.
    apply List.Forall_forall. intros c Hc%list_elem_of_In.
    pose proof (keyword_tokens_no_separator pf _ _ _ _ Ht Hc) as Hs.
    apply N.eqb_neq. unfold is_separator in Hs.
    by repeat apply orb_false_elim in Hs as [Hs _]. }
  destruct (keyword_tokens pf name tagline) as [|t ts]; [done|].
  rewrite str_split_join by done.
  inversion Htrim as [|? ? [Ht Hne] Hts]; subst.
  cbn [List.map List.filter]. rewrite trimmed_strip by done.
  replace (str_truthy t) with true by (by destruct t).
  f_equal. clear - Hts.
  induction Hts as [|t' ts [Ht' Hne'] _ IH]; [done|].
  cbn [List.map List.filter]. rewrite str_strip_after_blank by done.
  replace (str_truthy t') with true by (by destruct t'). by rewrite IH.
Qed.

(** X27: the order in which a set is iterated decides the order of the
    keywords and nothing else: on any two platforms the tokens are the
    same up to their order, and there are platforms on which the keyword
    strings of one product differ. *)
Theorem keywords_are_fixed_up_to_their_order :
  (forall (pf pf' : Platform) (name tagline : str),
     keyword_tokens pf name tagline ≡ₚ keyword_tokens pf' name tagline)
  /\ generate_keywords plain_platform (u "Venice") (u "Private AI")
     <> generate_keywords reversed_platform (u "Venice") (u "Private AI").
Proof.
  split; [intros; apply keyword_tokens_Permutation|].
  vm_compute. discriminate.
Qed.

(** * The dates of a run *)

Lemma strftime_date_format pf dt :
  1000 <= year dt ->
  strftime pf dt date_format = iso_date (year dt) (month dt) (day dt).
Proof.
  intros Hy. unfold iso_date.
  let f := eval cbv in date_format in change date_format with f.
  cbn [strftime N.eqb Pos.eqb percent strftime_directive].
  unfold format_year.
  replace (year dt <? 1000) with false by (symmetry; apply Z.ltb_ge; lia).
  reflexivity.
Qed.

(** The day before a date of the calendar is the ordinal before. *)
Lemma ymd2ord_previous_day y m d y' m' d' :
  check_date_fields y m d = true ->
  previous_day y m d = (y', m', d') ->
  1 < y ->
  ymd2ord y' m' d' = ymd2ord y m d - 1
  /\ check_date_fields y' m' d' = true
  /\ y - 1 <= y'.
Proof.
  intros (Hy & Hm & Hd)%check_date_fields_spec. unfold previous_day.
  destruct (Z.ltb_spec 1 d).
  - intros [= <- <- <-] _. split; [unfold ymd2ord; lia|].
    split; [apply check_date_fields_spec|]; lia.
  - assert (d = 1) as -> by lia. destruct (Z.ltb_spec 1 m).
    + intros [= <- <- <-] _. split.
      * unfold ymd2ord.
        replace (days_before_month y m)
          with (days_before_month y (m - 1 + 1)) by (f_equal; lia).
        rewrite days_before_next_month by lia. lia.
      * split; [|lia]. apply check_date_fields_spec.
        pose proof (days_in_month_ge y (m - 1)). lia.
    + assert (m = 1) as -> by lia. intros [= <- <- <-] Hy1. split.
      * unfold ymd2ord.
        replace (days_before_year y)
          with (days_before_year (y - 1 + 1)) by (f_equal; lia).
        rewrite days_before_next_year by lia.
        unfold days_before_month.
        change (2 <? 12) with true. change (2 <? 1) with false.
        change (DAYS_BEFORE_MONTH 12) with 334.
        change (DAYS_BEFORE_MONTH 1) with 0. cbn [andb].
        destruct (is_leap (y - 1)); lia.
      * split; [|lia]. apply check_date_fields_spec.
        unfold days_in_month. change (12 =? 2) with false. cbn [andb].
        change (DAYS_IN_MONTH 12) with 31. lia.
Qed.

(** One day before a time of the calendar. *)
Lemma add_seconds_one_day_back y m d h mi s :
  check_date_fields y m d = true ->
  check_time_fields h mi s = true ->
  1 < y < 9999 ->
  add_seconds {| year := y; month := m; day := d;
                 hour := h; minute := mi; second := s |} (- 86400)
  = Return (let '(y', m', d') := previous_day y m d in
            {| year := y'; month := m'; day := d';
               hour := h; minute := mi; second := s |}).
Proof.
  intros Hd Ht Hy.
  destruct (check_fields_ranges _ _ _ _ _ _ Hd Ht)
    as (Hy' & Hm & Hday & Hh & Hmi & Hs).
  destruct (previous_day y m d) as [[y' m'] d'] eqn:Ep.
  destruct (ymd2ord_previous_day _ _ _ _ _ _ Hd Ep ltac:(lia)) as (Eo & Hc & _).
  pose proof (ymd2ord_bounds _ _ _ Hd) as Ho.
  pose proof (ymd2ord_bounds _ _ _ Hc) as Ho'.
  assert (0 <= days_before_year y <= 3651329) as Hb.
  { unfold days_before_year. cbv zeta. Z.div_mod_to_equations. lia. }
  assert (1 <= y') as Hy1 by (apply check_date_fields_spec in Hc; lia).
  assert (0 <= days_before_year y') as Hb'.
  { unfold days_before_year. cbv zeta. Z.div_mod_to_equations. lia. }
  unfold add_seconds, to_seconds. cbn [year month day hour minute second].
  cbv zeta.
  set (o := ymd2ord y m d) in *.
  replace (((o - 1) * 86400 + h * 3600 + mi * 60 + s + - 86400) / 86400 + 1)
    with (o - 1) by (Z.div_mod_to_equations; lia).
  replace (((o - 1) * 86400 + h * 3600 + mi * 60 + s + - 86400) mod 86400)
    with (h * 3600 + mi * 60 + s) by (Z.div_mod_to_equations; lia).
  replace ((1 <=? o - 1) && (o - 1 <=? MAXORDINAL)) with true
    by (symmetry; apply andb_true_iff; rewrite !Z.leb_le; unfold MAXORDINAL; lia).
  rewrite <- Eo, ord2ymd_ymd2ord by done.
  do 2 f_equal; Z.div_mod_to_equations; lia.
Qed.

(** X28: for a reading of the clock in the years 1001 to 9998 the date of
    the document is the zero-padded date of the day, and the date the
    query asks for is the zero-padded date of the day before, the last day
    of the month or of the year before where the day is the first of
    one. *)
Theorem the_dates_of_a_run (pf : Platform) (y m d h mi s : Z) :
  check_date_fields y m d = true ->
  check_time_fields h mi s = true ->
  1000 < y < 9999 ->
  let now := {| year := y; month := m; day := d;
                hour := h; minute := mi; second := s |} in
  today_date_str pf now = iso_date y m d
  /\ yesterday_date_str pf now
     = Return (let '(y', m', d') := previous_day y m d in iso_date y' m' d').
Proof.
  intros Hd Ht Hy now. split.
  - unfold today_date_str. by rewrite strftime_date_format by (cbn; lia).
  - unfold yesterday_date_str, now.
    rewrite add_seconds_one_day_back by (done || lia).
    rewrite bind_Return. f_equal.
    destruct (previous_day y m d) as [[y' m'] d'] eqn:Ep.
    destruct (ymd2ord_previous_day _ _ _ _ _ _ Hd Ep ltac:(lia)) as (_ & _ & ?).
    by rewrite strftime_date_format by (cbn; lia).
Qed.

Lemma the_dates_of_a_run_witness :
  yesterday_date_str plain_platform
    {| year := 2024; month := 3; day := 1;
       hour := 0; minute := 30; second := 0 |}
  = Return (u "2024-02-29").
Proof.
  apply (proj2 (the_dates_of_a_run plain_platform 2024 3 1 0 30 0
                  eq_refl eq_refl ltac:(lia))).
Defined.

